(** * Particle Morph: the particle engine and the two shape samplers of
    [src/App.tsx], embedded in Rocq.

    Numbers.  A JavaScript [number] is modelled by a real ([R]): the
    arithmetic of the program is read as exact arithmetic, so rounding of
    IEEE doubles is outside this development.  Pixel coordinates, canvas
    sizes and array indices are natural numbers or integers, as the canvas
    API has them.

    Randomness.  [Math.random()] is a hidden, mutable source.  It is made
    explicit as a tape of draws that every sampling function threads
    through: a computation takes the tape and returns its result with the
    rest of the tape.  The contract of [Math.random] (a value in [0,1)) is
    the predicate [valid_tape].

    Texts.  A JavaScript string is a sequence of UTF-16 code units.  A
    text is a Rocq [string] read as such a sequence: each character
    stands for the code unit of its number, so the texts of the model are
    those whose code units are all below 256, and [String.length] is
    [text.length].

    Exceptions.  Reading a property of [undefined] throws a [TypeError].
    The two places of the source where an array is read at a computed
    index ([sampledPoints[randomIndex]] and [newPoints[i]]) say what
    happens then; so does the call of [getImageData], which throws an
    [IndexSizeError] for a rectangle without width or height. *)

From Stdlib Require Import Reals Lra Lia Psatz List String ZArith Bool.
Import ListNotations.
Open Scope R_scope.

(** ** Constants (App.tsx, lines 10-14) *)

Definition PARTICLE_COUNT : nat := 2800.
Definition HEART_SCALE : R := 14.
Definition BASE_TEXT_SIZE : R := 150.
Definition MOUSE_RADIUS : R := 100.
Definition COLORS : list string :=
  ["#ff2d55"; "#ff375f"; "#ff1744"; "#f50057"; "#d500f9"]%string.

(** ** The parts of the JavaScript runtime the program uses *)

Module Math.

Definition PI : R := Rtrigo1.PI.

(** [Math.floor], to an integer. *)
Definition floor (r : R) : Z := Int_part r.

Definition sqrt (r : R) : R := R_sqrt.sqrt r.

Definition min (a b : R) : R := Rmin a b.

(** [Math.pow] at a natural exponent, the only use in the source. *)
Definition pow (a : R) (n : nat) : R := a ^ n.

(** [Math.atan2(y, x)]: the angle of the point [(x, y)], in (-PI, PI],
    and 0 at the origin. *)
Definition atan2 (y x : R) : R :=
  if Rlt_dec 0 x then atan (y / x)
  else if Rlt_dec x 0 then
    (if Rle_dec 0 y then atan (y / x) + Rtrigo1.PI
     else atan (y / x) - Rtrigo1.PI)
  else if Rlt_dec 0 y then Rtrigo1.PI / 2
  else if Rlt_dec y 0 then - (Rtrigo1.PI / 2)
  else 0.

End Math.

(** The comparisons [a < b] and [a > b] of the source, as booleans. *)
Definition Rltb (a b : R) : bool := if Rlt_dec a b then true else false.
Definition Rgtb (a b : R) : bool := Rltb b a.

(** [arr[i]] for an integer index: [None] stands for [undefined]. *)
Definition js_index {A : Type} (arr : list A) (i : Z) : option A :=
  if (i <? 0)%Z then None else nth_error arr (Z.to_nat i).

(** *** The random tape *)

Definition Tape : Type := nat -> R.

Definition Rand (A : Type) : Type := Tape -> A * Tape.

Definition ret {A : Type} (a : A) : Rand A := fun tp => (a, tp).

Definition bind {A B : Type} (m : Rand A) (k : A -> Rand B) : Rand B :=
  fun tp => let (a, tp') := m tp in k a tp'.

Notation "x <- m ;; k" := (bind m (fun x => k))
  (at level 61, m at next level, right associativity).

(** One call of [Math.random()]. *)
Definition random : Rand R := fun tp => (tp 0%nat, fun n => tp (S n)).

(** The contract of [Math.random]: every draw is in [0, 1). *)
Definition valid_tape (tp : Tape) : Prop := forall n, 0 <= tp n < 1.

(** The tape that always draws [r]. *)
Definition const_tape (r : R) : Tape := fun _ => r.

(** The tape that draws the elements of [l], then [r] for ever. *)
Definition tape_of (l : list R) (r : R) : Tape := fun n => nth n l r.

(** The outcome of code that may throw: the value, or the exception. *)
Inductive outcome (A : Type) : Type :=
| Returned (a : A)
| Threw.
Arguments Returned {A} a.
Arguments Threw {A}.

(** ** Types (App.tsx, lines 17-51) *)

Module Point.
Record t : Type := mk { x : R; y : R }.
End Point.

Module Particle.

Record t : Type := mk {
  x : R;
  y : R;
  targetX : R;
  targetY : R;
  vx : R;
  vy : R;
  size : R;
  baseSize : R;
  friction : R;
  ease : R;
  color : option string;   (* [COLORS[k]]; [None] is [undefined] *)
  opacity : R;
  twinkleSpeed : R
}.

(** [new Particle(x, y)] in a window of the given inner size.  The nine
    draws are taken in the order of the assignments. *)
Definition constructor (innerWidth innerHeight : nat) (x0 y0 : R)
  : Rand t :=
  r1 <- random ;;
  r2 <- random ;;
  r3 <- random ;;
  r4 <- random ;;
  r5 <- random ;;
  r6 <- random ;;
  r7 <- random ;;
  r8 <- random ;;
  r9 <- random ;;
  let baseSize := r5 * 1.5 + 0.8 in
  ret {| x := r1 * INR innerWidth;
         y := r2 * INR innerHeight;
         targetX := x0;
         targetY := y0;
         vx := (r3 - 0.5) * 10;
         vy := (r4 - 0.5) * 10;
         baseSize := baseSize;
         size := baseSize;
         friction := 0.9;
         ease := 0.05 + r6 * 0.05;
         color := js_index COLORS (Math.floor (r7 * INR (List.length COLORS)));
         opacity := r8;
         twinkleSpeed := 0.01 + r9 * 0.02 |}.

(** [update(mouseX, mouseY)]: the fields after the call. *)
Definition update (p : t) (mouseX mouseY : R) : t :=
  let dx := targetX p - x p in
  let dy := targetY p - y p in
  let vx1 := vx p + dx * ease p in
  let vy1 := vy p + dy * ease p in
  (* Mouse interaction *)
  let mdx := x p - mouseX in
  let mdy := y p - mouseY in
  let distSq := mdx * mdx + mdy * mdy in
  let radiusSq := MOUSE_RADIUS * MOUSE_RADIUS in
  let v2 :=
    if Rltb distSq radiusSq then
      let dist := Math.sqrt distSq in
      let force := (MOUSE_RADIUS - dist) / MOUSE_RADIUS in
      let angle := Math.atan2 mdy mdx in
      let push := force * 15 in
      (vx1 + cos angle * push, vy1 + sin angle * push)
    else (vx1, vy1) in
  let vx3 := fst v2 * friction p in
  let vy3 := snd v2 * friction p in
  let x1 := x p + vx3 in
  let y1 := y p + vy3 in
  let opacity1 := opacity p + twinkleSpeed p in
  let twinkleSpeed1 :=
    if Rgtb opacity1 1 || Rltb opacity1 0.4
    then twinkleSpeed p * -1
    else twinkleSpeed p in
  {| x := x1; y := y1;
     targetX := targetX p; targetY := targetY p;
     vx := vx3; vy := vy3;
     size := size p; baseSize := baseSize p;
     friction := friction p; ease := ease p;
     color := color p;
     opacity := opacity1; twinkleSpeed := twinkleSpeed1 |}.

(** A run of animation ticks: one [update] per frame, each with the
    mouse position read at that frame ([animate], lines 208-211). *)
Fixpoint run (p : t) (mice : list (R * R)) : t :=
  match mice with
  | [] => p
  | (mouseX, mouseY) :: rest => run (update p mouseX mouseY) rest
  end.

End Particle.

(** ** Shape sampling (App.tsx, lines 104-172) *)

(** One iteration of the loop of [getHeartPoints], for the draw [r]. *)
Definition heartPoint (width height : nat) (r : R) : Point.t :=
  let t := r * Math.PI * 2 in
  let x := 16 * Math.pow (sin t) 3 in
  let y := - (13 * cos t - 5 * cos (2 * t) - 2 * cos (3 * t) - cos (4 * t)) in
  {| Point.x := INR width / 2 + x * HEART_SCALE;
     Point.y := INR height / 2 + y * HEART_SCALE |}.

(** The loop [for (i = 0; i < n; i++)] of [getHeartPoints]. *)
Fixpoint heartLoop (n width height : nat) : Rand (list Point.t) :=
  match n with
  | O => ret []
  | S k =>
      r <- random ;;
      rest <- heartLoop k width height ;;
      ret (heartPoint width height r :: rest)
  end.

Definition getHeartPoints (width height : nat) : Rand (list Point.t) :=
  heartLoop PARTICLE_COUNT width height.

(** The off-screen canvas.  With the font, fill style, alignment and
    baseline the source sets, [clearRect], [fillText] at the centre and
    [getImageData(0, 0, width, height).data] make one function of the
    text drawn, the font size and the canvas size: the RGBA bytes, four
    per pixel, row by row.  The rasterizer belongs to the browser and is
    left open. *)
Definition Raster : Type := string -> R -> nat -> nat -> list Z.

Record Host : Type := mkHost {
  (** [canvas.getContext('2d')]: [None] is [null]. *)
  getContext2d : option Raster;
  (** [String.prototype.toUpperCase]. *)
  toUpperCase : string -> string
}.

(** [const step = 2]. *)
Definition step : nat := 2.

(** The values [0, step, 2 * step, ...] below [bound] that a loop
    [for (v = 0; v < bound; v += step)] goes through. *)
Definition gridCoords (bound : nat) : list nat :=
  map (fun k => (k * step)%nat) (seq 0 ((bound + step - 1) / step)).

(** The variables of the scan: the candidates, as pixels [(x, y)], and
    the bounding box accumulated with them. *)
Record Scan : Type := mkScan {
  sampledPoints : list (nat * nat);
  minX : nat;
  maxX : nat;
  minY : nat;
  maxY : nat
}.

(** The body of the inner loop at the pixel [(x, y)]. *)
Definition visit (imageData : list Z) (width : nat) (s : Scan) (y x : nat)
  : Scan :=
  let index := ((y * width + x) * 4)%nat in
  match nth_error imageData (index + 3) with
  | Some alpha =>
      if (128 <? alpha)%Z then
        {| sampledPoints := sampledPoints s ++ [(x, y)];
           minX := if (x <? minX s)%nat then x else minX s;
           maxX := if (maxX s <? x)%nat then x else maxX s;
           minY := if (y <? minY s)%nat then y else minY s;
           maxY := if (maxY s <? y)%nat then y else maxY s |}
      else s
  | None => s   (* [undefined > 128] is false *)
  end.

Definition scanRow (imageData : list Z) (width : nat) (s : Scan) (y : nat)
  : Scan :=
  fold_left (fun s' x => visit imageData width s' y x) (gridCoords width) s.

Definition scan (imageData : list Z) (width height : nat) : Scan :=
  fold_left (scanRow imageData width) (gridCoords height)
    {| sampledPoints := []; minX := width; maxX := 0;
       minY := height; maxY := 0 |}.

(** The offsets that place the candidates (lines 157-160). *)
Definition offsetX (width : nat) (s : Scan) : R :=
  let textWidth := INR (maxX s) - INR (minX s) in
  (INR width - textWidth) / 2 - INR (minX s).

Definition offsetY (height : nat) (s : Scan) : R :=
  let textHeight := INR (maxY s) - INR (minY s) in
  (INR height - textHeight) / 2 - INR (minY s).

(** The loop [for (i = 0; i < n; i++)] that draws the targets with
    replacement.  [p.x] throws when [p] is [undefined]; this is before
    the two jitter draws of that iteration. *)
Fixpoint textLoop (n : nat) (sampled : list (nat * nat)) (offX offY : R)
  : Rand (outcome (list Point.t)) :=
  match n with
  | O => ret (Returned [])
  | S k =>
      r <- random ;;
      let randomIndex := Math.floor (r * INR (List.length sampled)) in
      match js_index sampled randomIndex with
      | None => ret Threw
      | Some (px, py) =>
          jx <- random ;;
          jy <- random ;;
          rest <- textLoop k sampled offX offY ;;
          match rest with
          | Threw => ret Threw
          | Returned l =>
              ret (Returned
                     ({| Point.x := INR px + offX + (jx - 0.5) * 1.5;
                         Point.y := INR py + offY + (jy - 0.5) * 1.5 |}
                      :: l))
          end
      end
  end.

(** The font size of line 126; [text.length || 1] is the divisor. *)
Definition fontSize (text : string) (width : nat) : R :=
  let len := String.length text in
  Math.min BASE_TEXT_SIZE
    (INR width / INR (if (len =? 0)%nat then 1%nat else len) * 1.4).

(** Lines 128-153: the text is drawn and the image scanned (for a canvas
    that has a width and a height). *)
Definition textScan (host : Host) (ctx : Raster) (text : string)
  (width height : nat) : Scan :=
  let imageData :=
    ctx (toUpperCase host text) (fontSize text width) width height in
  scan imageData width height.

Definition getTextPoints (host : Host) (text : string) (width height : nat)
  : Rand (outcome (list Point.t)) :=
  match getContext2d host with
  | None => ret (Returned [])
  | Some ctx =>
      (* [getImageData(0, 0, width, height)] (line 136) throws when the
         width or the height is 0 *)
      if ((width =? 0) || (height =? 0))%nat then ret Threw
      else
        let s := textScan host ctx text width height in
        match sampledPoints s with
        | [] =>
            pts <- getHeartPoints width height ;;
            ret (Returned pts)
        | _ :: _ =>
            textLoop PARTICLE_COUNT (sampledPoints s)
              (offsetX width s) (offsetY height s)
        end
  end.

(** [text.trim()].  Among the code units below 256, the white space and
    the line terminators that [String.prototype.trim] strips are TAB, LF,
    VT, FF, CR (9 to 13), SPACE (32) and the no-break space (160). *)
Definition isSpace (c : Ascii.ascii) : bool :=
  let n := Ascii.nat_of_ascii c in
  ((9 <=? n) && (n <=? 13) || (n =? 32) || (n =? 160))%nat.

Fixpoint trimStart (s : string) : string :=
  match s with
  | EmptyString => EmptyString
  | String c r => if isSpace c then trimStart r else s
  end.

Fixpoint trimEnd (s : string) : string :=
  match s with
  | EmptyString => EmptyString
  | String c r =>
      match trimEnd r with
      | EmptyString => if isSpace c then EmptyString else String c EmptyString
      | r' => String c r'
      end
  end.

Definition trim (s : string) : string := trimEnd (trimStart s).

(** The value bound to [newPoints] in [updateTargets] (lines 193-195):
    the shape sampler. *)
Definition newPoints (host : Host) (text : string) (width height : nat)
  : Rand (outcome (list Point.t)) :=
  if String.eqb (trim text) EmptyString then
    pts <- getHeartPoints width height ;;
    ret (Returned pts)
  else getTextPoints host text width height.

(** ** The particle field and retargeting (App.tsx, lines 174-224) *)

(** The state the handlers read and write: the [text] the effect closed
    over, the window and canvas sizes, and [particles.current]. *)
Record App : Type := mkApp {
  text : string;
  innerWidth : nat;
  innerHeight : nat;
  canvasWidth : nat;
  canvasHeight : nat;
  particles : list Particle.t
}.

Definition setParticles (app : App) (ps : list Particle.t) : App :=
  {| text := text app;
     innerWidth := innerWidth app; innerHeight := innerHeight app;
     canvasWidth := canvasWidth app; canvasHeight := canvasHeight app;
     particles := ps |}.

(** [p.targetX = q.x; p.targetY = q.y]. *)
Definition setTarget (p : Particle.t) (q : Point.t) : Particle.t :=
  {| Particle.x := Particle.x p; Particle.y := Particle.y p;
     Particle.targetX := Point.x q; Particle.targetY := Point.y q;
     Particle.vx := Particle.vx p; Particle.vy := Particle.vy p;
     Particle.size := Particle.size p;
     Particle.baseSize := Particle.baseSize p;
     Particle.friction := Particle.friction p;
     Particle.ease := Particle.ease p;
     Particle.color := Particle.color p;
     Particle.opacity := Particle.opacity p;
     Particle.twinkleSpeed := Particle.twinkleSpeed p |}.

(** [particles.current.forEach((p, i) => ...)] from index [i] on.  The
    particles are mutated in place, so when [newPoints[i]] is
    [undefined] and the callback throws, the particles already visited
    keep their new targets and the others are left as they were.  The
    boolean tells whether the loop threw. *)
Fixpoint forEachTarget (i : nat) (pts : list Point.t)
  (ps : list Particle.t) : list Particle.t * bool :=
  match ps with
  | [] => ([], false)
  | p :: rest =>
      match nth_error pts i with
      | None => (p :: rest, true)
      | Some q =>
          let (rest', threw) := forEachTarget (S i) pts rest in
          (setTarget p q :: rest', threw)
      end
  end.

(** [updateTargets()]; the canvas is mounted.  The result is the state
    after the call and whether the call threw. *)
Definition updateTargets (host : Host) (app : App) : Rand (App * bool) :=
  pts <- newPoints host (text app) (canvasWidth app) (canvasHeight app) ;;
  match pts with
  | Threw => ret (app, true)
  | Returned l =>
      let (ps, threw) := forEachTarget 0 l (particles app) in
      ret (setParticles app ps, threw)
  end.

(** [initialPoints.map(p => new Particle(p.x, p.y))]. *)
Fixpoint createParticles (innerW innerH : nat) (pts : list Point.t)
  : Rand (list Particle.t) :=
  match pts with
  | [] => ret []
  | q :: rest =>
      p <- Particle.constructor innerW innerH (Point.x q) (Point.y q) ;;
      ps <- createParticles innerW innerH rest ;;
      ret (p :: ps)
  end.

(** [handleResize()]. *)
Definition handleResize (host : Host) (app : App) : Rand (App * bool) :=
  let app1 :=
    {| text := text app;
       innerWidth := innerWidth app; innerHeight := innerHeight app;
       canvasWidth := innerWidth app; canvasHeight := innerHeight app;
       particles := particles app |} in
  match particles app1 with
  | [] =>
      initialPoints <- getHeartPoints (canvasWidth app1) (canvasHeight app1) ;;
      ps <- createParticles (innerWidth app1) (innerHeight app1)
              initialPoints ;;
      ret (setParticles app1 ps, false)
  | _ :: _ => updateTargets host app1
  end.

(** What the page reacts to.  A resize of the window runs the listener
    [handleResize].  A change of the text re-runs the effect, whose body
    calls [handleResize] with the new text in scope. *)
Inductive Event : Type :=
| Resize (width height : nat)
| SetText (s : string).

Definition handle (host : Host) (ev : Event) (app : App)
  : Rand (App * bool) :=
  match ev with
  | Resize w h =>
      handleResize host
        {| text := text app;
           innerWidth := w; innerHeight := h;
           canvasWidth := canvasWidth app; canvasHeight := canvasHeight app;
           particles := particles app |}
  | SetText s =>
      handleResize host
        {| text := s;
           innerWidth := innerWidth app; innerHeight := innerHeight app;
           canvasWidth := canvasWidth app; canvasHeight := canvasHeight app;
           particles := particles app |}
  end.

(** A sequence of events; an exception ends one handler, not the page. *)
Fixpoint handleAll (host : Host) (evs : list Event) (app : App) : Rand App :=
  match evs with
  | [] => ret app
  | ev :: rest =>
      r <- handle host ev app ;;
      handleAll host rest (fst r)
  end.

(** ** Hosts and rasters used in the examples *)

(** [toUpperCase] on ASCII letters. *)
Definition upperChar (c : Ascii.ascii) : Ascii.ascii :=
  let n := Ascii.nat_of_ascii c in
  if ((97 <=? n) && (n <=? 122))%nat then Ascii.ascii_of_nat (n - 32) else c.

Fixpoint asciiUpperCase (s : string) : string :=
  match s with
  | EmptyString => EmptyString
  | String c r => String (upperChar c) (asciiUpperCase r)
  end.

(** A browser that hands out no 2D context. *)
Definition hostWithoutContext : Host :=
  {| getContext2d := None; toUpperCase := asciiUpperCase |}.

(** A browser whose rasterizer leaves the canvas transparent. *)
Definition blankRaster : Raster :=
  fun _ _ width height => repeat 0%Z (4 * width * height).

Definition blankHost : Host :=
  {| getContext2d := Some blankRaster; toUpperCase := asciiUpperCase |}.

(** A browser whose rasterizer paints an L: the left column and the two
    bottom rows of the canvas are opaque, the rest is transparent. *)
Definition ellRaster : Raster :=
  fun _ _ width height =>
    flat_map
      (fun i =>
         let x := (i mod width)%nat in
         let y := (i / width)%nat in
         if ((x =? 0) || (height <=? y + 2))%nat
         then [255; 255; 255; 255]%Z
         else [0; 0; 0; 0]%Z)
      (seq 0 (width * height)).

Definition ellHost : Host :=
  {| getContext2d := Some ellRaster; toUpperCase := asciiUpperCase |}.

(** ** Vocabulary of the properties *)

(** The centroid of the candidates, before the jitter, on each axis. *)
Definition sumX (l : list (nat * nat)) : nat :=
  fold_right (fun p acc => (fst p + acc)%nat) 0%nat l.

Definition sumY (l : list (nat * nat)) : nat :=
  fold_right (fun p acc => (snd p + acc)%nat) 0%nat l.

Definition centroidX (l : list (nat * nat)) : R :=
  INR (sumX l) / INR (List.length l).

Definition centroidY (l : list (nat * nat)) : R :=
  INR (sumY l) / INR (List.length l).

(** [minX .. maxX] x [minY .. maxY] is the bounding box of the
    candidates: it holds them all and each side is touched by one. *)
Definition bounding_box (s : Scan) : Prop :=
  (forall p, In p (sampledPoints s) ->
     (minX s <= fst p <= maxX s)%nat /\ (minY s <= snd p <= maxY s)%nat)
  /\ (exists p, In p (sampledPoints s) /\ fst p = minX s)
  /\ (exists p, In p (sampledPoints s) /\ fst p = maxX s)
  /\ (exists p, In p (sampledPoints s) /\ snd p = minY s)
  /\ (exists p, In p (sampledPoints s) /\ snd p = maxY s).

(** Two particles that differ at most in [targetX] and [targetY]. *)
Definition same_but_target (p q : Particle.t) : Prop :=
  Particle.x p = Particle.x q
  /\ Particle.y p = Particle.y q
  /\ Particle.vx p = Particle.vx q
  /\ Particle.vy p = Particle.vy q
  /\ Particle.size p = Particle.size q
  /\ Particle.baseSize p = Particle.baseSize q
  /\ Particle.friction p = Particle.friction q
  /\ Particle.ease p = Particle.ease q
  /\ Particle.color p = Particle.color q
  /\ Particle.opacity p = Particle.opacity q
  /\ Particle.twinkleSpeed p = Particle.twinkleSpeed q.

(** A particle at rest at the origin, used in the examples. *)
Definition restingParticle : Particle.t :=
  {| Particle.x := 0; Particle.y := 0;
     Particle.targetX := 0; Particle.targetY := 0;
     Particle.vx := 0; Particle.vy := 0;
     Particle.size := 1; Particle.baseSize := 1;
     Particle.friction := 0.9; Particle.ease := 0.05;
     Particle.color := Some "#ff2d55"%string;
     Particle.opacity := 0.5; Particle.twinkleSpeed := 0.01 |}.

(** Two particles with the same position, velocity, target, ease,
    friction, opacity and twinkle speed (size and colour may differ). *)
Definition agree_physics (p q : Particle.t) : Prop :=
  Particle.x p = Particle.x q
  /\ Particle.y p = Particle.y q
  /\ Particle.vx p = Particle.vx q
  /\ Particle.vy p = Particle.vy q
  /\ Particle.targetX p = Particle.targetX q
  /\ Particle.targetY p = Particle.targetY q
  /\ Particle.ease p = Particle.ease q
  /\ Particle.friction p = Particle.friction q
  /\ Particle.opacity p = Particle.opacity q
  /\ Particle.twinkleSpeed p = Particle.twinkleSpeed q.

(** A second particle at rest, larger and of another colour. *)
Definition largeRestingParticle : Particle.t :=
  {| Particle.x := 0; Particle.y := 0;
     Particle.targetX := 0; Particle.targetY := 0;
     Particle.vx := 0; Particle.vy := 0;
     Particle.size := 2; Particle.baseSize := 2;
     Particle.friction := 0.9; Particle.ease := 0.05;
     Particle.color := Some "#d500f9"%string;
     Particle.opacity := 0.5; Particle.twinkleSpeed := 0.01 |}.

(** Draws for one [new Particle]: the eighth, the opacity, is 0.1 and
    the ninth gives the twinkle speed 0.01. *)
Definition dimTape : Tape := tape_of [0.5; 0.5; 0.5; 0.5; 0; 0; 0; 0.1; 0] 0.

Definition dimParticle : Particle.t :=
  fst (Particle.constructor 800 600 400 300 dimTape).

(** Draws for one [new Particle] with opacity 0.99 and twinkle speed
    0.02. *)
Definition brightTape : Tape :=
  tape_of [0.5; 0.5; 0.5; 0.5; 0; 0; 0; 0.99; 0.5] 0.

Definition brightParticle : Particle.t :=
  fst (Particle.constructor 800 600 400 300 brightTape).

(** The physics of one tick in the words of the specification.

    [(ix, iy)] is the impulse of the mouse on [p]: inside the radius it
    has the magnitude [(MOUSE_RADIUS - dist) / MOUSE_RADIUS * 15] and
    points from the mouse to the particle (scaled by [dist] it is that
    magnitude times [position - mouse]); at or beyond the radius it is
    null. *)
Definition mouse_impulse (p : Particle.t) (mouseX mouseY ix iy : R) : Prop :=
  let mdx := Particle.x p - mouseX in
  let mdy := Particle.y p - mouseY in
  let dist := sqrt (mdx * mdx + mdy * mdy) in
  let magnitude := (MOUSE_RADIUS - dist) / MOUSE_RADIUS * 15 in
  (mdx * mdx + mdy * mdy < MOUSE_RADIUS * MOUSE_RADIUS ->
   0 < magnitude
   /\ ix * ix + iy * iy = magnitude * magnitude
   /\ ix * dist = magnitude * mdx
   /\ iy * dist = magnitude * mdy)
  /\ (MOUSE_RADIUS * MOUSE_RADIUS <= mdx * mdx + mdy * mdy ->
      ix = 0 /\ iy = 0).

(** The four steps, in their order: spring, impulse, friction,
    integration. *)
Definition physics_step (p : Particle.t) (mouseX mouseY : R)
  (p' : Particle.t) : Prop :=
  exists ix iy,
    mouse_impulse p mouseX mouseY ix iy
    /\ let vx1 := Particle.vx p
                  + (Particle.targetX p - Particle.x p) * Particle.ease p in
       let vy1 := Particle.vy p
                  + (Particle.targetY p - Particle.y p) * Particle.ease p in
       let vx2 := vx1 + ix in
       let vy2 := vy1 + iy in
       let vx3 := vx2 * Particle.friction p in
       let vy3 := vy2 * Particle.friction p in
       Particle.vx p' = vx3
       /\ Particle.vy p' = vy3
       /\ Particle.x p' = Particle.x p + vx3
       /\ Particle.y p' = Particle.y p + vy3.

(** The visible viewport: the canvas rectangle. *)
Definition in_viewport (width height : nat) (q : Point.t) : Prop :=
  0 <= Point.x q <= INR width /\ 0 <= Point.y q <= INR height.

(** The distance of a particle to its target, its speed, and their
    squares. *)
Definition distSqToTarget (p : Particle.t) : R :=
  (Particle.x p - Particle.targetX p) * (Particle.x p - Particle.targetX p)
  + (Particle.y p - Particle.targetY p) * (Particle.y p - Particle.targetY p).

Definition distToTarget (p : Particle.t) : R := sqrt (distSqToTarget p).

Definition speedSq (p : Particle.t) : R :=
  Particle.vx p * Particle.vx p + Particle.vy p * Particle.vy p.

Definition speed (p : Particle.t) : R := sqrt (speedSq p).

(** The quadratic form of the offset [d] from the target and of the
    velocity [v] that one free tick multiplies by the friction. *)
Definition energy (p : Particle.t) : R :=
  let f := Particle.friction p in
  let e := Particle.ease p in
  let dx := Particle.x p - Particle.targetX p in
  let dy := Particle.y p - Particle.targetY p in
  f * e * (dx * dx + dy * dy)
  + (1 - f - f * e) * (dx * Particle.vx p + dy * Particle.vy p)
  + f * (Particle.vx p * Particle.vx p + Particle.vy p * Particle.vy p).

(** The mouse is at or beyond the interaction radius of the particle at
    every tick of the run. *)
Fixpoint mouse_clear (p : Particle.t) (mice : list (R * R)) : Prop :=
  match mice with
  | [] => True
  | (mouseX, mouseY) :: rest =>
      MOUSE_RADIUS * MOUSE_RADIUS
      <= (Particle.x p - mouseX) * (Particle.x p - mouseX)
         + (Particle.y p - mouseY) * (Particle.y p - mouseY)
      /\ mouse_clear (Particle.update p mouseX mouseY) rest
  end.

(** A particle at rest 100 pixels to the left of its target, as slow to
    ease as the constructor makes them. *)
Definition farParticle : Particle.t :=
  {| Particle.x := 0; Particle.y := 0;
     Particle.targetX := 100; Particle.targetY := 0;
     Particle.vx := 0; Particle.vy := 0;
     Particle.size := 1; Particle.baseSize := 1;
     Particle.friction := 0.9; Particle.ease := 0.05;
     Particle.color := Some "#ff2d55"%string;
     Particle.opacity := 0.5; Particle.twinkleSpeed := 0.01 |}.

(** The mouse left the page: the sentinel of [onMouseLeave]. *)
Definition noMouse : R * R := (-1000, -1000).

(** A particle on the horizontal line through its target at (100, 0),
    at abscissa [x0] with the horizontal velocity [v0]. *)
Definition on_axis (p : Particle.t) (x0 v0 : R) : Prop :=
  Particle.x p = x0 /\ Particle.vx p = v0
  /\ Particle.y p = 0 /\ Particle.vy p = 0
  /\ Particle.targetX p = 100 /\ Particle.targetY p = 0
  /\ Particle.ease p = 0.05 /\ Particle.friction p = 0.9.

(** What the scan keeps true of its variables, in a canvas of the given
    size: before the first candidate the box has its initial values;
    from then on it is the bounding box. *)
Definition scan_inv (width height : nat) (s : Scan) : Prop :=
  (forall p, In p (sampledPoints s) ->
     (fst p < width)%nat /\ (snd p < height)%nat)
  /\ (sampledPoints s = [] ->
      minX s = width /\ maxX s = 0%nat /\ minY s = height /\ maxY s = 0%nat)
  /\ (sampledPoints s <> [] -> bounding_box s).

(** When the opacity is inside the band, or outside it by at most one
    step and heading back, it stays so for ever: this is the invariant
    the reflection at 0.4 and at 1 maintains. *)
Definition twinkle_in_band (p : Particle.t) : Prop :=
  let o := Particle.opacity p in
  let s := Particle.twinkleSpeed p in
  Rabs s <= 0.03
  /\ 0.4 - Rabs s <= o <= 1 + Rabs s
  /\ (1 < o -> s < 0)
  /\ (o < 0.4 -> 0 < s).

(** The two states the dim particle alternates between. *)
Definition dim_states (p : Particle.t) : Prop :=
  (Particle.opacity p = 0.1 /\ Particle.twinkleSpeed p = 0.01)
  \/ (Particle.opacity p = 0.11 /\ Particle.twinkleSpeed p = -0.01).

(** The pixels of the raster of a text that the sampler may choose from:
    the candidates of the scan, and none when there is no 2D context to
    draw with. *)
Definition eligiblePixels (host : Host) (text : string) (width height : nat)
  : list (nat * nat) :=
  match getContext2d host with
  | None => []
  | Some ctx => sampledPoints (textScan host ctx text width height)
  end.

(** ** Drawing and the animation frame (App.tsx, lines 87-93, 203-214) *)

(** The calls made on the 2D context of the visible canvas. *)
Inductive CanvasOp : Type :=
| SetGlobalAlpha (alpha : R)
| SetFillStyle (style : option string)
| FillRect (x y w h : R)
| BeginPath
| Arc (x y radius startAngle endAngle : R)
| Fill.

(** [draw(ctx)]: the calls of one particle, in their order. *)
Definition draw (p : Particle.t) : list CanvasOp :=
  [SetGlobalAlpha (Particle.opacity p);
   SetFillStyle (Particle.color p);
   BeginPath;
   Arc (Particle.x p) (Particle.y p) (Particle.size p) 0 (Math.PI * 2);
   Fill].

(** [particles.current.forEach(p => { p.update(...); p.draw(ctx); })]:
    the particles after the loop and the calls it made. *)
Fixpoint animateParticles (ps : list Particle.t) (mouseX mouseY : R)
  : list Particle.t * list CanvasOp :=
  match ps with
  | [] => ([], [])
  | p :: rest =>
      let p' := Particle.update p mouseX mouseY in
      let (rest', ops) := animateParticles rest mouseX mouseY in
      (p' :: rest', draw p' ++ ops)
  end.

(** One run of the body of [animate()], for the value of
    [mouse.current] at that frame; the request for the next frame is the
    input [OnFrame] below. *)
Definition animate (app : App) (mouse : R * R) : App * list CanvasOp :=
  let (ps, ops) := animateParticles (particles app) (fst mouse) (snd mouse) in
  (setParticles app ps,
   [SetGlobalAlpha 1;
    SetFillStyle (Some "rgba(0, 0, 0, 0.2)"%string);
    FillRect 0 0 (INR (canvasWidth app)) (INR (canvasHeight app))]
   ++ ops).

(** ** The page (App.tsx, lines 96-102, 174-231) *)

(** The two refs the handlers share. *)
Record Page : Type := mkPage {
  state : App;
  mouse : R * R
}.

(** What happens to the mounted page: an event of the window or of the
    input field, a move of the mouse over the page, the mouse leaving
    it, and the animation frame the browser grants. *)
Inductive Input : Type :=
| OnEvent (ev : Event)
| OnMouseMove (clientX clientY : R)
| OnMouseLeave
| OnFrame.

(** One input.  The result is the page, whether the handler threw, and
    the calls made on the canvas.  The effect that a new text re-runs
    calls [handleResize()] and then [animate()]; an exception in the
    first leaves the second out. *)
Definition dispatch (host : Host) (inp : Input) (pg : Page)
  : Rand (Page * bool * list CanvasOp) :=
  match inp with
  | OnEvent (Resize w h) =>
      r <- handle host (Resize w h) (state pg) ;;
      ret ({| state := fst r; mouse := mouse pg |}, snd r, [])
  | OnEvent (SetText s) =>
      r <- handle host (SetText s) (state pg) ;;
      if snd r then ret ({| state := fst r; mouse := mouse pg |}, true, [])
      else
        let (a, ops) := animate (fst r) (mouse pg) in
        ret ({| state := a; mouse := mouse pg |}, false, ops)
  | OnMouseMove clientX clientY =>
      ret ({| state := state pg; mouse := (clientX, clientY) |}, false, [])
  | OnMouseLeave =>
      ret ({| state := state pg; mouse := (-1000, -1000) |}, false, [])
  | OnFrame =>
      let (a, ops) := animate (state pg) (mouse pg) in
      ret ({| state := a; mouse := mouse pg |}, false, ops)
  end.

(** A sequence of inputs.  An exception ends the handler that raised
    it; the run goes on with the next input, and the boolean tells
    whether some handler threw. *)
Fixpoint runInputs (host : Host) (inps : list Input) (pg : Page)
  : Rand (Page * bool * list CanvasOp) :=
  match inps with
  | [] => ret (pg, false, [])
  | inp :: rest =>
      r <- dispatch host inp pg ;;
      r' <- runInputs host rest (fst (fst r)) ;;
      ret (fst (fst r'), snd (fst r) || snd (fst r'), snd r ++ snd r')
  end.

(** The state before the effect first runs: [useState('')], no
    particle, the mouse at its sentinel, and a canvas of the default
    size. *)
Definition initialApp (width height : nat) : App :=
  {| text := ""; innerWidth := width; innerHeight := height;
     canvasWidth := 300; canvasHeight := 150; particles := [] |}.

(** The first run of the effect in a window of the given size:
    [handleResize()], then [animate()]. *)
Definition mount (host : Host) (width height : nat)
  : Rand (Page * bool * list CanvasOp) :=
  r <- handleResize host (initialApp width height) ;;
  if snd r then ret ({| state := fst r; mouse := (-1000, -1000) |}, true, [])
  else
    let (a, ops) := animate (fst r) (-1000, -1000) in
    ret ({| state := a; mouse := (-1000, -1000) |}, false, ops).

(** ** More vocabulary *)

(** The test of line 145 on the pixel [(x, y)]. *)
Definition isOpaque (imageData : list Z) (width x y : nat) : bool :=
  match nth_error imageData ((y * width + x) * 4 + 3) with
  | Some alpha => (128 <? alpha)%Z
  | None => false
  end.

(** A computation that hands on a tape of draws in [0, 1) when it is
    given one. *)
Definition keeps_valid {A : Type} (m : Rand A) : Prop :=
  forall tp, valid_tape tp -> valid_tape (snd (m tp)).

(** A raster with a single opaque pixel, at [(px, py)]. *)
Definition dotRaster (px py : nat) : Raster :=
  fun _ _ width height =>
    flat_map
      (fun i =>
         if ((i mod width =? px) && (i / width =? py))%nat
         then [255; 255; 255; 255]%Z
         else [0; 0; 0; 0]%Z)
      (seq 0 (width * height)).

Definition dotHost (px py : nat) : Host :=
  {| getContext2d := Some (dotRaster px py); toUpperCase := asciiUpperCase |}.

(** The text has only white-space characters (or none). *)
Fixpoint allSpace (s : string) : bool :=
  match s with
  | EmptyString => true
  | String c r => isSpace c && allSpace r
  end.

(** The mirror image of a point in the vertical line through the centre
    of a viewport of the given width. *)
Definition mirrored (width : nat) (q q' : Point.t) : Prop :=
  Point.x q' - INR width / 2 = - (Point.x q - INR width / 2)
  /\ Point.y q' = Point.y q.

(** A particle aims at the point [q]. *)
Definition aims_at (q : Point.t) (p : Particle.t) : Prop :=
  Particle.targetX p = Point.x q /\ Particle.targetY p = Point.y q.

(** What a new particle is, whatever its target: inside the window,
    slower than 5 pixels a tick on each axis, of a radius in [0.8, 2.3),
    of a colour of the palette, with the friction 0.9, an ease in
    [0.05, 0.1), an opacity in [0, 1) and a twinkle speed in
    [0.01, 0.03). *)
Definition fresh (innerW innerH : nat) (p : Particle.t) : Prop :=
  0 <= Particle.x p <= INR innerW
  /\ 0 <= Particle.y p <= INR innerH
  /\ -5 <= Particle.vx p < 5
  /\ -5 <= Particle.vy p < 5
  /\ 0.8 <= Particle.baseSize p < 2.3
  /\ Particle.size p = Particle.baseSize p
  /\ (exists c, Particle.color p = Some c /\ In c COLORS)
  /\ Particle.friction p = 0.9
  /\ 0.05 <= Particle.ease p < 0.1
  /\ 0 <= Particle.opacity p < 1
  /\ 0.01 <= Particle.twinkleSpeed p < 0.03.

(** The opacity and the twinkle speed of [p] are [o] and [s], or the
    next values [o + s] and [- s]. *)
Definition alternates (o s : R) (p : Particle.t) : Prop :=
  (Particle.opacity p = o /\ Particle.twinkleSpeed p = s)
  \/ (Particle.opacity p = o + s /\ Particle.twinkleSpeed p = - s).

(** Two particles with the same target and the same look and constants:
    what a run of updates leaves alone. *)
Definition same_identity (p q : Particle.t) : Prop :=
  Particle.size p = Particle.size q
  /\ Particle.baseSize p = Particle.baseSize q
  /\ Particle.color p = Particle.color q
  /\ Particle.friction p = Particle.friction q
  /\ Particle.ease p = Particle.ease q.

(** The look and the constants of a fresh particle. *)
Definition looks_fresh (p : Particle.t) : Prop :=
  (exists c, Particle.color p = Some c /\ In c COLORS)
  /\ Particle.size p = Particle.baseSize p
  /\ 0.8 <= Particle.baseSize p < 2.3
  /\ Particle.friction p = 0.9
  /\ 0.05 <= Particle.ease p < 0.1.

(** The particles of a page. *)
Definition field (pg : Page) : list Particle.t := particles (state pg).

(** A session: the mount in a window of the given size, then the
    inputs. *)
Definition session (host : Host) (width height : nat) (inps : list Input)
  : Rand (Page * bool * list CanvasOp) :=
  m <- mount host width height ;;
  r <- runInputs host inps (fst (fst m)) ;;
  ret (fst (fst r), snd (fst m) || snd (fst r), snd m ++ snd r).

(** An event that leaves the window with a width and a height. *)
Definition sized_event (ev : Event) : Prop :=
  match ev with
  | Resize width height => (1 <= width)%nat /\ (1 <= height)%nat
  | SetText _ => True
  end.

Definition sized_input (inp : Input) : Prop :=
  match inp with
  | OnEvent ev => sized_event ev
  | _ => True
  end.

(** The window of a page has a width and a height. *)
Definition has_window (a : App) : Prop :=
  (1 <= innerWidth a)%nat /\ (1 <= innerHeight a)%nat.

(** * Properties *)

(** ** Tapes and indices *)

Lemma valid_tape_shift (tp : Tape) :
  valid_tape tp -> valid_tape (fun n => tp (S n)).
Proof. intros H n. apply H. Qed.

Lemma valid_const_tape (r : R) : 0 <= r < 1 -> valid_tape (const_tape r).
Proof. intros H n. exact H. Qed.

Lemma floor_bounds (z : R) :
  IZR (Math.floor z) <= z < IZR (Math.floor z) + 1.
Proof.
  unfold Math.floor. destruct (base_Int_part z) as [Hle Hgt]. lra.
Qed.

(** [Math.floor(Math.random() * arr.length)] is an index of [arr]. *)
Lemma random_index_defined {A : Type} (arr : list A) (r : R) :
  0 <= r < 1 -> arr <> [] ->
  exists a, js_index arr (Math.floor (r * INR (List.length arr))) = Some a.
Proof.
  intros Hr Hne.
  assert (Hlen : (0 < List.length arr)%nat)
    by (destruct arr; [congruence | simpl; lia]).
  set (z := r * INR (List.length arr)).
  assert (HL : 0 < INR (List.length arr)) by (apply lt_0_INR; exact Hlen).
  assert (Hz : 0 <= z < INR (List.length arr)) by (unfold z; nra).
  destruct (floor_bounds z) as [Hlo Hhi].
  assert (H0 : (0 <= Math.floor z)%Z).
  { apply Z.lt_succ_r. apply lt_IZR. rewrite succ_IZR. lra. }
  assert (H1 : (Math.floor z < Z.of_nat (List.length arr))%Z).
  { apply lt_IZR. rewrite <- INR_IZR_INZ. lra. }
  unfold js_index.
  destruct (Z.ltb_spec (Math.floor z) 0) as [Hneg | _]; [lia |].
  destruct (nth_error arr (Z.to_nat (Math.floor z))) as [a |] eqn:E.
  - exists a. reflexivity.
  - apply nth_error_None in E. lia.
Qed.

(** ** Count of the sampled points *)

Lemma heartLoop_length (n width height : nat) (tp : Tape) :
  List.length (fst (heartLoop n width height tp)) = n.
Proof.
  revert tp. induction n as [| k IH]; intros tp; [reflexivity |].
  cbn [heartLoop]. unfold bind, random, ret.
  specialize (IH (fun n => tp (S n))).
  destruct (heartLoop k width height (fun n => tp (S n))) as [rest tp'].
  simpl in *. now rewrite IH.
Qed.

Lemma getHeartPoints_length (width height : nat) (tp : Tape) :
  List.length (fst (getHeartPoints width height tp)) = PARTICLE_COUNT.
Proof. apply heartLoop_length. Qed.

Lemma textLoop_length (n : nat) (sampled : list (nat * nat)) (offX offY : R)
  (tp : Tape) :
  valid_tape tp -> sampled <> [] ->
  exists l, fst (textLoop n sampled offX offY tp) = Returned l
            /\ List.length l = n.
Proof.
  intros Hv Hne. revert tp Hv.
  induction n as [| k IH]; intros tp Hv.
  - exists []. split; reflexivity.
  - cbn [textLoop]. unfold bind at 1. unfold random at 1.
    destruct (random_index_defined sampled (tp 0%nat) (Hv 0%nat) Hne)
      as [[px py] Hidx].
    rewrite Hidx. unfold bind, random.
    set (tp3 := fun n : nat => tp (S (S (S n)))).
    destruct (IH tp3) as [l [Hl Hlen]].
    { intros n. apply Hv. }
    destruct (textLoop k sampled offX offY tp3) as [rest tp'].
    simpl in Hl. subst rest. unfold ret. simpl.
    eexists. split; [reflexivity |]. simpl. now rewrite Hlen.
Qed.

(** C1, as stated, fails: without a 2D context [getTextPoints] takes its
    early return, and the sampler yields the empty list for the text "A"
    in a 1x1 viewport. *)
Lemma sampler_count_counterexample :
  fst (newPoints hostWithoutContext "A" 1 1 (const_tape 0)) = Returned []
  /\ List.length (@nil Point.t) <> PARTICLE_COUNT.
Proof.
  split.
  - reflexivity.
  - unfold PARTICLE_COUNT. simpl. discriminate.
Qed.

Lemma has_size (width height : nat) :
  (1 <= width)%nat -> (1 <= height)%nat ->
  ((width =? 0) || (height =? 0))%nat = false.
Proof.
  intros Hw Hh.
  destruct (Nat.eqb_spec width 0); [lia |].
  destruct (Nat.eqb_spec height 0); [lia | reflexivity].
Qed.

(** C1, amended: when the off-screen canvas gives a 2D context, the shape
    sampler returns, for every text and every viewport size of at least
    1x1 pixels, a list of exactly [PARTICLE_COUNT] points; the heart
    sampler does so with or without a context. *)
Theorem sampler_count (host : Host) (ctx : Raster) (text : string)
  (width height : nat) (tp : Tape) :
  getContext2d host = Some ctx ->
  (1 <= width)%nat -> (1 <= height)%nat ->
  valid_tape tp ->
  (exists l, fst (newPoints host text width height tp) = Returned l
             /\ List.length l = PARTICLE_COUNT)
  /\ List.length (fst (getHeartPoints width height tp)) = PARTICLE_COUNT.
Proof.
  intros Hctx Hw Hh Hv. split; [| apply getHeartPoints_length].
  unfold newPoints.
  destruct (String.eqb (trim text) EmptyString).
  - unfold bind, ret.
    pose proof (getHeartPoints_length width height tp) as HL.
    destruct (getHeartPoints width height tp) as [pts tp'].
    exists pts. split; [reflexivity | exact HL].
  - unfold getTextPoints. rewrite Hctx, (has_size width height Hw Hh).
    set (s := textScan host ctx text width height).
    destruct (sampledPoints s) as [| c cs] eqn:Es.
    + unfold bind, ret.
      pose proof (getHeartPoints_length width height tp) as HL.
      destruct (getHeartPoints width height tp) as [pts tp'].
      exists pts. split; [reflexivity | exact HL].
    + apply textLoop_length; [exact Hv | discriminate].
Qed.

Lemma sampler_count_witness :
  (exists l, fst (newPoints ellHost "L" 20 20 (const_tape 0)) = Returned l
             /\ List.length l = PARTICLE_COUNT)
  /\ List.length (fst (getHeartPoints 20 20 (const_tape 0))) = PARTICLE_COUNT.
Proof.
  apply (sampler_count ellHost ellRaster "L" 20 20 (const_tape 0)).
  - reflexivity.
  - lia.
  - lia.
  - apply valid_const_tape. lra.
Defined.

(** ** Fallback to the heart *)

(** C4, as stated, fails: without a 2D context the raster of "A" in a
    4x4 viewport has no eligible pixel, and [getTextPoints] returns the
    empty list, not the [PARTICLE_COUNT] points of the heart; and in a
    viewport without width there is no eligible pixel either, and
    [getTextPoints] throws. *)
Lemma text_fallback_counterexample :
  eligiblePixels hostWithoutContext "A" 4 4 = []
  /\ fst (getTextPoints hostWithoutContext "A" 4 4 (const_tape 0))
     = Returned []
  /\ fst (getTextPoints hostWithoutContext "A" 4 4 (const_tape 0))
     <> Returned (fst (getHeartPoints 4 4 (const_tape 0)))
  /\ eligiblePixels blankHost "A" 0 4 = []
  /\ fst (getTextPoints blankHost "A" 0 4 (const_tape 0)) = Threw.
Proof.
  split; [reflexivity |]. split; [reflexivity |].
  split; [| split; reflexivity].
  intros H.
  assert (E : fst (getTextPoints hostWithoutContext "A" 4 4 (const_tape 0))
              = Returned []) by reflexivity.
  rewrite E in H.
  (* the heart has a first point, the empty list has none *)
  inversion H.
Qed.

(** C4, amended: with a 2D context and a viewport of at least 1x1
    pixels, when the scan of the raster collects no pixel,
    [getTextPoints] returns what [getHeartPoints] returns for the same
    viewport (and the same draws), which has [PARTICLE_COUNT] points. *)
Theorem text_fallback_is_heart (host : Host) (ctx : Raster) (text : string)
  (width height : nat) (tp : Tape) :
  getContext2d host = Some ctx ->
  (1 <= width)%nat -> (1 <= height)%nat ->
  sampledPoints (textScan host ctx text width height) = [] ->
  fst (getTextPoints host text width height tp)
    = Returned (fst (getHeartPoints width height tp))
  /\ snd (getTextPoints host text width height tp)
    = snd (getHeartPoints width height tp)
  /\ List.length (fst (getHeartPoints width height tp)) = PARTICLE_COUNT.
Proof.
  intros Hctx Hw Hh Hscan. unfold getTextPoints.
  rewrite Hctx, (has_size width height Hw Hh).
  cbv zeta. rewrite Hscan. unfold bind, ret.
  pose proof (getHeartPoints_length width height tp) as HL.
  destruct (getHeartPoints width height tp) as [pts tp'].
  cbn [fst snd] in *.
  split; [reflexivity |]. split; [reflexivity | exact HL].
Qed.

Lemma text_fallback_is_heart_witness :
  fst (getTextPoints blankHost "hi" 4 4 (const_tape 0))
    = Returned (fst (getHeartPoints 4 4 (const_tape 0)))
  /\ snd (getTextPoints blankHost "hi" 4 4 (const_tape 0))
    = snd (getHeartPoints 4 4 (const_tape 0))
  /\ List.length (fst (getHeartPoints 4 4 (const_tape 0))) = PARTICLE_COUNT.
Proof.
  apply (text_fallback_is_heart blankHost blankRaster "hi" 4 4 (const_tape 0)).
  - reflexivity.
  - lia.
  - lia.
  - vm_compute. reflexivity.
Defined.

(** ** The scan and its bounding box *)

Lemma gridCoords_lt (bound v : nat) : In v (gridCoords bound) -> (v < bound)%nat.
Proof.
  unfold gridCoords, step. intros H.
  apply in_map_iff in H. destruct H as [k [Hk Hin]].
  apply in_seq in Hin. destruct Hin as [_ Hlt]. simpl in Hlt.
  assert (Hd : (k < (bound + 1) / 2)%nat)
    by (replace (bound + 1)%nat with (bound + 2 - 1)%nat by lia; exact Hlt).
  pose proof (Nat.div_mod_eq (bound + 1) 2) as Hdm.
  pose proof (Nat.mod_upper_bound (bound + 1) 2) as Hm.
  lia.
Qed.

Lemma visit_inv (imageData : list Z) (width height : nat) (s : Scan)
  (y x : nat) :
  (x < width)%nat -> (y < height)%nat ->
  scan_inv width height s -> scan_inv width height (visit imageData width s y x).
Proof.
  intros Hx Hy [Hin [Hinit Hbox]]. unfold visit.
  destruct (nth_error imageData ((y * width + x) * 4 + 3)) as [alpha |];
    [| split; [| split]; assumption].
  destruct (128 <? alpha)%Z; [| split; [| split]; assumption].
  split; [| split].
  - cbn [sampledPoints]. intros p Hp. apply in_app_or in Hp.
    destruct Hp as [Hp | [Hp | []]]; [now apply Hin | subst p; simpl; lia].
  - cbn [sampledPoints]. intros E. destruct (sampledPoints s); discriminate.
  - intros _. unfold bounding_box in *.
    cbn [sampledPoints minX maxX minY maxY].
    assert (Hnew : In (x, y) (sampledPoints s ++ [(x, y)]))
      by (apply in_or_app; right; left; reflexivity).
    assert (Hold : forall p, In p (sampledPoints s) ->
                             In p (sampledPoints s ++ [(x, y)]))
      by (intros p Hp; apply in_or_app; now left).
    destruct (sampledPoints s) as [| c cs] eqn:Es.
    + destruct Hinit as [E1 [E2 [E3 E4]]]; [reflexivity |].
      rewrite E1, E2, E3, E4.
      destruct (Nat.ltb_spec x width); [| lia].
      destruct (Nat.ltb_spec y height); [| lia].
      assert (Hsel : forall v : nat, (if (0 <? v)%nat then v else 0%nat) = v).
      { intros v. destruct (Nat.ltb_spec 0 v); lia. }
      rewrite !Hsel.
      split; [| split; [| split; [| split]]];
        try (exists (x, y); split; [exact Hnew | reflexivity]).
      intros p [Hp | []]. subst p. simpl. lia.
    + destruct Hbox as [Hall [[p1 [I1 B1]] [[p2 [I2 B2]] [[p3 [I3 B3]]
                                                         [p4 [I4 B4]]]]]];
        [discriminate |].
      split; [| split; [| split; [| split]]].
      * intros p Hp. apply in_app_or in Hp.
        destruct Hp as [Hp | [Hp | []]].
        -- specialize (Hall p Hp).
           destruct (Nat.ltb_spec x (minX s)), (Nat.ltb_spec (maxX s) x),
             (Nat.ltb_spec y (minY s)), (Nat.ltb_spec (maxY s) y); lia.
        -- subst p. simpl.
           destruct (Nat.ltb_spec x (minX s)), (Nat.ltb_spec (maxX s) x),
             (Nat.ltb_spec y (minY s)), (Nat.ltb_spec (maxY s) y); lia.
      * destruct (Nat.ltb_spec x (minX s));
          [exists (x, y) | exists p1]; split; auto.
      * destruct (Nat.ltb_spec (maxX s) x);
          [exists (x, y) | exists p2]; split; auto.
      * destruct (Nat.ltb_spec y (minY s));
          [exists (x, y) | exists p3]; split; auto.
      * destruct (Nat.ltb_spec (maxY s) y);
          [exists (x, y) | exists p4]; split; auto.
Qed.

Lemma fold_left_inv {A B : Type} (P : A -> Prop) (Q : B -> Prop)
  (f : A -> B -> A) (l : list B) (a : A) :
  (forall a' b, Q b -> P a' -> P (f a' b)) ->
  (forall b, In b l -> Q b) -> P a -> P (fold_left f l a).
Proof.
  intros Hstep. revert a.
  induction l as [| b l IH]; intros a Hl Ha; [exact Ha |].
  simpl. apply IH.
  - intros b' Hb'. apply Hl. now right.
  - apply Hstep; [apply Hl; now left | exact Ha].
Qed.

Lemma scan_keeps_inv (imageData : list Z) (width height : nat) :
  scan_inv width height (scan imageData width height).
Proof.
  unfold scan.
  apply (fold_left_inv (scan_inv width height) (fun y => (y < height)%nat)).
  - intros s y Hy Hs. unfold scanRow.
    apply (fold_left_inv (scan_inv width height) (fun x => (x < width)%nat)).
    + intros s' x Hx Hs'. now apply visit_inv.
    + apply gridCoords_lt.
    + exact Hs.
  - apply gridCoords_lt.
  - repeat split; simpl; try tauto; intros H; now elim H.
Qed.

(** ** Centering of the candidates *)

Lemma ell_scan :
  textScan ellHost ellRaster "L" 20 20
  = {| sampledPoints :=
         [(0, 0); (0, 2); (0, 4); (0, 6); (0, 8); (0, 10); (0, 12); (0, 14);
          (0, 16); (0, 18); (2, 18); (4, 18); (6, 18); (8, 18); (10, 18);
          (12, 18); (14, 18); (16, 18); (18, 18)]%nat;
       minX := 0; maxX := 18; minY := 0; maxY := 18 |}.
Proof. vm_compute. reflexivity. Qed.

(** C5, as stated, fails: for an L drawn in a 20x20 viewport the box of
    the candidates is centred, but their centroid, after the offset, is
    more than 4 pixels away from the centre on both axes. *)
Lemma centroid_counterexample :
  let s := textScan ellHost ellRaster "L" 20 20 in
  sampledPoints s <> []
  /\ Rabs (centroidX (sampledPoints s) + offsetX 20 s - INR 20 / 2) > 4
  /\ Rabs (centroidY (sampledPoints s) + offsetY 20 s - INR 20 / 2) > 4.
Proof.
  cbv zeta. rewrite ell_scan.
  unfold centroidX, centroidY, offsetX, offsetY.
  cbn [sampledPoints minX maxX minY maxY].
  split; [discriminate |].
  match goal with
  | |- context [sumX ?l] =>
      replace (sumX l) with 90%nat by reflexivity;
      replace (sumY l) with 252%nat by reflexivity;
      replace (List.length l) with 19%nat by reflexivity
  end.
  rewrite !INR_IZR_INZ. cbn [Z.of_nat Pos.of_succ_nat Pos.succ].
  split.
  - rewrite Rabs_left; lra.
  - rewrite Rabs_right; lra.
Qed.

(** C5, amended: for every text whose scan has a candidate, the variables
    [minX .. maxY] are the bounding box of the candidates, and the
    offsets put the midpoint of that box at the centre of the viewport
    on both axes. *)
Theorem bounding_box_centered (host : Host) (ctx : Raster) (text : string)
  (width height : nat) :
  let s := textScan host ctx text width height in
  sampledPoints s <> [] ->
  bounding_box s
  /\ ((INR (minX s) + offsetX width s) + (INR (maxX s) + offsetX width s)) / 2
     = INR width / 2
  /\ ((INR (minY s) + offsetY height s) + (INR (maxY s) + offsetY height s)) / 2
     = INR height / 2.
Proof.
  intros s Hne. split; [| split].
  - destruct (scan_keeps_inv
                (ctx (toUpperCase host text) (fontSize text width) width height)
                width height) as [_ [_ Hbox]].
    apply Hbox. exact Hne.
  - unfold offsetX. field.
  - unfold offsetY. field.
Qed.

Lemma bounding_box_centered_witness :
  let s := textScan ellHost ellRaster "L" 20 20 in
  bounding_box s
  /\ ((INR (minX s) + offsetX 20 s) + (INR (maxX s) + offsetX 20 s)) / 2
     = INR 20 / 2
  /\ ((INR (minY s) + offsetY 20 s) + (INR (maxY s) + offsetY 20 s)) / 2
     = INR 20 / 2.
Proof.
  apply (bounding_box_centered ellHost ellRaster "L" 20 20).
  vm_compute. discriminate.
Defined.

(** ** Retargeting touches the targets only *)

Lemma same_but_target_refl (p : Particle.t) : same_but_target p p.
Proof. unfold same_but_target. tauto. Qed.

Lemma same_but_target_trans (p q r : Particle.t) :
  same_but_target p q -> same_but_target q r -> same_but_target p r.
Proof.
  unfold same_but_target. intros Hpq Hqr.
  decompose [and] Hpq. decompose [and] Hqr.
  repeat split; congruence.
Qed.

Lemma frame_refl (ps : list Particle.t) : Forall2 same_but_target ps ps.
Proof.
  induction ps; constructor; [apply same_but_target_refl | assumption].
Qed.

Lemma frame_trans (ps qs rs : list Particle.t) :
  Forall2 same_but_target ps qs -> Forall2 same_but_target qs rs ->
  Forall2 same_but_target ps rs.
Proof.
  intros H. revert rs.
  induction H as [| p q ps qs Hpq _ IH]; intros rs Hr.
  - inversion Hr. constructor.
  - inversion Hr as [| q' r qs' rs' Hqr Hrest]; subst.
    constructor; [eapply same_but_target_trans; eassumption | now apply IH].
Qed.

Lemma setTarget_frame (p : Particle.t) (q : Point.t) :
  same_but_target p (setTarget p q).
Proof. unfold same_but_target, setTarget. simpl. tauto. Qed.

Lemma forEachTarget_frame (pts : list Point.t) (ps : list Particle.t) :
  forall i, Forall2 same_but_target ps (fst (forEachTarget i pts ps)).
Proof.
  induction ps as [| p rest IH]; intros i; simpl; [constructor |].
  destruct (nth_error pts i) as [q |].
  - specialize (IH (S i)).
    destruct (forEachTarget (S i) pts rest) as [rest' threw]. simpl in *.
    constructor; [apply setTarget_frame | exact IH].
  - simpl. apply frame_refl.
Qed.

Lemma updateTargets_frame (host : Host) (app : App) (tp : Tape) :
  Forall2 same_but_target (particles app)
    (particles (fst (fst (updateTargets host app tp)))).
Proof.
  unfold updateTargets, bind.
  destruct (newPoints host (text app) (canvasWidth app) (canvasHeight app) tp)
    as [[l |] tp'].
  - pose proof (forEachTarget_frame l (particles app) 0) as H.
    destruct (forEachTarget 0 l (particles app)) as [ps threw].
    simpl in *. exact H.
  - simpl. apply frame_refl.
Qed.

Lemma handleResize_frame (host : Host) (app : App) (tp : Tape) :
  particles app <> [] ->
  Forall2 same_but_target (particles app)
    (particles (fst (fst (handleResize host app tp)))).
Proof.
  intros Hne. unfold handleResize. cbn [particles].
  destruct (particles app) as [| p ps] eqn:E; [congruence |].
  rewrite <- E.
  match goal with
  | |- context [updateTargets host ?a tp] =>
      exact (updateTargets_frame host a tp)
  end.
Qed.

Lemma handle_frame (host : Host) (ev : Event) (app : App) (tp : Tape) :
  particles app <> [] ->
  Forall2 same_but_target (particles app)
    (particles (fst (fst (handle host ev app tp)))).
Proof.
  intros Hne. destruct ev as [w h | s]; unfold handle;
    match goal with
    | |- context [handleResize host ?a tp] =>
        exact (handleResize_frame host a tp Hne)
    end.
Qed.

Lemma frame_nonempty (ps qs : list Particle.t) :
  Forall2 same_but_target ps qs -> ps <> [] -> qs <> [].
Proof. intros H Hne. destruct H; [congruence | discriminate]. Qed.

(** C7: after the initial creation, any sequence of retargeting events
    (text changes and resizes) leaves the collection with the same length
    and every particle with the position, velocity, size and colour it
    had (and every other field but [targetX] and [targetY]). *)
Theorem retargeting_frame (host : Host) (evs : list Event) (app : App)
  (tp : Tape) :
  particles app <> [] ->
  Forall2 same_but_target (particles app)
    (particles (fst (handleAll host evs app tp)))
  /\ List.length (particles (fst (handleAll host evs app tp)))
     = List.length (particles app).
Proof.
  intros Hne.
  assert (H : Forall2 same_but_target (particles app)
                (particles (fst (handleAll host evs app tp)))).
  { revert app tp Hne.
    induction evs as [| ev rest IH]; intros app tp Hne.
    - simpl. apply frame_refl.
    - cbn [handleAll]. unfold bind.
      pose proof (handle_frame host ev app tp Hne) as H1.
      destruct (handle host ev app tp) as [[app1 threw] tp1].
      simpl in H1. simpl fst.
      eapply frame_trans; [exact H1 |].
      apply IH. eapply frame_nonempty; eassumption. }
  split; [exact H |].
  symmetry. eapply Forall2_length. exact H.
Qed.

Lemma retargeting_frame_witness :
  let app := {| text := ""; innerWidth := 20; innerHeight := 20;
                canvasWidth := 20; canvasHeight := 20;
                particles := [restingParticle; restingParticle] |} in
  let evs := [SetText "L"; Resize 30 20; SetText ""] in
  Forall2 same_but_target (particles app)
    (particles (fst (handleAll ellHost evs app (const_tape 0))))
  /\ List.length (particles (fst (handleAll ellHost evs app (const_tape 0))))
     = List.length (particles app).
Proof.
  intros app evs.
  apply (retargeting_frame ellHost evs app (const_tape 0)).
  simpl. discriminate.
Defined.

(** ** The update is a function of the particle and the mouse *)

(** C10: two particles with the same position, velocity, target, ease,
    friction, opacity and twinkle speed, updated with the same mouse
    coordinates, have the same such fields afterwards; [update] takes no
    draw from the random tape. *)
Theorem update_deterministic (p q : Particle.t) (mouseX mouseY : R) :
  agree_physics p q ->
  agree_physics (Particle.update p mouseX mouseY)
                (Particle.update q mouseX mouseY).
Proof.
  destruct p, q. unfold agree_physics. simpl.
  intros H. decompose [and] H. subst.
  unfold Particle.update. simpl.
  repeat split; reflexivity.
Qed.

Lemma update_deterministic_witness :
  agree_physics (Particle.update restingParticle 10 20)
                (Particle.update largeRestingParticle 10 20).
Proof.
  apply (update_deterministic restingParticle largeRestingParticle 10 20).
  unfold agree_physics. simpl. repeat split; reflexivity.
Defined.

(** ** The constants of a particle *)

Lemma valid_tape_of (l : list R) (r : R) :
  Forall (fun v => 0 <= v < 1) l -> 0 <= r < 1 -> valid_tape (tape_of l r).
Proof.
  intros Hl Hr n. unfold tape_of. revert n.
  induction Hl as [| v l Hv _ IH]; intros [| n]; simpl; auto.
Qed.

Lemma valid_brightTape : valid_tape brightTape.
Proof. apply valid_tape_of; [repeat constructor; lra | lra]. Qed.

Lemma valid_dimTape : valid_tape dimTape.
Proof. apply valid_tape_of; [repeat constructor; lra | lra]. Qed.

Lemma Rltb_true (a b : R) : a < b -> Rltb a b = true.
Proof. intros H. unfold Rltb. destruct (Rlt_dec a b); [reflexivity | lra]. Qed.

Lemma Rltb_false (a b : R) : b <= a -> Rltb a b = false.
Proof. intros H. unfold Rltb. destruct (Rlt_dec a b); [lra | reflexivity]. Qed.

Lemma update_twinkle (p : Particle.t) (mouseX mouseY : R) :
  Particle.opacity (Particle.update p mouseX mouseY)
  = Particle.opacity p + Particle.twinkleSpeed p
  /\ (Particle.twinkleSpeed (Particle.update p mouseX mouseY)
      = Particle.twinkleSpeed p
      \/ Particle.twinkleSpeed (Particle.update p mouseX mouseY)
         = - Particle.twinkleSpeed p).
Proof.
  unfold Particle.update. simpl. split; [reflexivity |].
  destruct (Rgtb _ 1 || Rltb _ 0.4); [right; lra | left; reflexivity].
Qed.

Lemma update_constants (p : Particle.t) (mouseX mouseY : R) :
  Particle.ease (Particle.update p mouseX mouseY) = Particle.ease p
  /\ Particle.friction (Particle.update p mouseX mouseY) = Particle.friction p
  /\ Rabs (Particle.twinkleSpeed (Particle.update p mouseX mouseY))
     = Rabs (Particle.twinkleSpeed p).
Proof.
  split; [reflexivity | split; [reflexivity |]].
  destruct (update_twinkle p mouseX mouseY) as [_ [H | H]]; rewrite H;
    [reflexivity | apply Rabs_Ropp].
Qed.

Lemma run_constants (mice : list (R * R)) :
  forall p,
    Particle.ease (Particle.run p mice) = Particle.ease p
    /\ Particle.friction (Particle.run p mice) = Particle.friction p
    /\ Rabs (Particle.twinkleSpeed (Particle.run p mice))
       = Rabs (Particle.twinkleSpeed p).
Proof.
  induction mice as [| [mx my] rest IH]; intros p; simpl; [tauto |].
  destruct (IH (Particle.update p mx my)) as [He [Hf Ht]].
  destruct (update_constants p mx my) as [He' [Hf' Ht']].
  repeat split; congruence.
Qed.

(** C6, as stated, fails: the friction of a particle does not depend on
    the draws, so it does not vary across the population; and the twinkle
    speed of a particle is not fixed, one update changes it from 0.02 to
    -0.02. *)
Lemma friction_varies_counterexample :
  ~ (exists (w h : nat) (x1 y1 x2 y2 : R) (tp1 tp2 : Tape),
        Particle.friction (fst (Particle.constructor w h x1 y1 tp1))
        <> Particle.friction (fst (Particle.constructor w h x2 y2 tp2)))
  /\ valid_tape brightTape
  /\ Particle.twinkleSpeed brightParticle = 0.02
  /\ Particle.twinkleSpeed (Particle.update brightParticle (-1000) (-1000))
     = -0.02.
Proof.
  split; [| split; [| split]].
  - intros [w [h [x1 [y1 [x2 [y2 [tp1 [tp2 H]]]]]]]]. apply H. reflexivity.
  - exact valid_brightTape.
  - unfold brightParticle, brightTape, tape_of. simpl. lra.
  - unfold Particle.update.
    unfold brightParticle, brightTape, tape_of. simpl.
    unfold Rgtb. rewrite (Rltb_true 1) by lra. simpl. lra.
Qed.

(** C6, amended: the ease and the twinkle speed of a new particle are
    read off two draws of its own (ease = 0.05 + r * 0.05, in [0.05, 0.1);
    twinkle speed = 0.01 + r * 0.02, in [0.01, 0.03)), and the friction is
    0.9 for every particle; over any run of updates the ease and the
    friction stay as constructed, and the twinkle speed keeps its
    magnitude (only its sign changes). *)
Theorem constructor_constants (w h : nat) (x0 y0 : R) (tp : Tape)
  (mice : list (R * R)) :
  valid_tape tp ->
  let p := fst (Particle.constructor w h x0 y0 tp) in
  Particle.ease p = 0.05 + tp 5%nat * 0.05
  /\ 0.05 <= Particle.ease p < 0.1
  /\ Particle.twinkleSpeed p = 0.01 + tp 8%nat * 0.02
  /\ 0.01 <= Particle.twinkleSpeed p < 0.03
  /\ Particle.friction p = 0.9
  /\ Particle.ease (Particle.run p mice) = Particle.ease p
  /\ Particle.friction (Particle.run p mice) = Particle.friction p
  /\ Rabs (Particle.twinkleSpeed (Particle.run p mice))
     = Rabs (Particle.twinkleSpeed p).
Proof.
  intros Hv p.
  pose proof (Hv 5%nat) as H5. pose proof (Hv 8%nat) as H8.
  assert (He : Particle.ease p = 0.05 + tp 5%nat * 0.05) by reflexivity.
  assert (Ht : Particle.twinkleSpeed p = 0.01 + tp 8%nat * 0.02)
    by reflexivity.
  split; [exact He |]. split; [rewrite He; lra |].
  split; [exact Ht |]. split; [rewrite Ht; lra |].
  split; [reflexivity |].
  apply run_constants.
Qed.

Lemma constructor_constants_witness :
  let p := fst (Particle.constructor 800 600 400 300 brightTape) in
  let mice := [(-1000, -1000); (10, 20)] in
  Particle.ease p = 0.05 + brightTape 5%nat * 0.05
  /\ 0.05 <= Particle.ease p < 0.1
  /\ Particle.twinkleSpeed p = 0.01 + brightTape 8%nat * 0.02
  /\ 0.01 <= Particle.twinkleSpeed p < 0.03
  /\ Particle.friction p = 0.9
  /\ Particle.ease (Particle.run p mice) = Particle.ease p
  /\ Particle.friction (Particle.run p mice) = Particle.friction p
  /\ Rabs (Particle.twinkleSpeed (Particle.run p mice))
     = Rabs (Particle.twinkleSpeed p).
Proof.
  apply (constructor_constants 800 600 400 300 brightTape
           [(-1000, -1000); (10, 20)]).
  apply valid_tape_of; [repeat constructor; lra | lra].
Defined.

(** ** The twinkle *)

Lemma twinkle_in_band_update (p : Particle.t) (mouseX mouseY : R) :
  twinkle_in_band p -> twinkle_in_band (Particle.update p mouseX mouseY).
Proof.
  unfold twinkle_in_band, Particle.update. cbn [Particle.opacity Particle.twinkleSpeed].
  set (o := Particle.opacity p). set (s := Particle.twinkleSpeed p).
  intros [Hs [Ho [Hhi Hlo]]].
  unfold Rgtb, Rltb.
  destruct (Rlt_dec 1 (o + s)) as [H1 | H1];
    destruct (Rlt_dec (o + s) 0.4) as [H2 | H2]; cbn [orb];
    revert Hs Ho; unfold Rabs;
    destruct (Rcase_abs s), (Rcase_abs (s * -1)); intros Hs Ho;
    repeat split; try lra;
    try (intros; destruct (Rlt_dec 1 o); destruct (Rlt_dec o 0.4); lra).
Qed.

Lemma twinkle_in_band_run (mice : list (R * R)) :
  forall p, twinkle_in_band p ->
            0.37 <= Particle.opacity (Particle.run p mice) <= 1.03.
Proof.
  induction mice as [| [mx my] rest IH]; intros p Hp.
  - simpl. destruct Hp as [Hs [Ho _]]. lra.
  - simpl. apply IH. now apply twinkle_in_band_update.
Qed.

Lemma dim_states_update (p : Particle.t) (mouseX mouseY : R) :
  dim_states p -> dim_states (Particle.update p mouseX mouseY).
Proof.
  unfold dim_states, Particle.update.
  cbn [Particle.opacity Particle.twinkleSpeed].
  intros [[Ho Hs] | [Ho Hs]]; rewrite Ho, Hs; unfold Rgtb.
  - right. rewrite (Rltb_false 1), (Rltb_true _ 0.4) by lra. simpl.
    split; lra.
  - left. rewrite (Rltb_false 1), (Rltb_true _ 0.4) by lra. simpl.
    split; lra.
Qed.

(** C3 at the failing input: a particle constructed with the opacity
    draw 0.1 and the twinkle speed 0.01 (draws of a valid tape) has, after
    any run of updates and whatever the mouse does, an opacity of 0.1 or
    0.11: it is reflected at every tick and never reaches the band
    [0.4 - 0.03, 1 + 0.03]. *)
Theorem twinkle_stuck_below_band (mice : list (R * R)) :
  valid_tape dimTape
  /\ Particle.opacity dimParticle = 0.1
  /\ Particle.twinkleSpeed dimParticle = 0.01
  /\ Particle.opacity (Particle.run dimParticle mice) <= 0.11
  /\ Particle.opacity (Particle.run dimParticle mice) < 0.4 - 0.03.
Proof.
  assert (H0 : dim_states dimParticle).
  { left. unfold dimParticle, dimTape, tape_of. simpl. split; lra. }
  assert (Hrun : forall p, dim_states p -> dim_states (Particle.run p mice)).
  { induction mice as [| [mx my] rest IH]; intros p Hp; simpl; [exact Hp |].
    apply IH. now apply dim_states_update. }
  split; [exact valid_dimTape |].
  split; [unfold dimParticle, dimTape, tape_of; simpl; lra |].
  split; [unfold dimParticle, dimTape, tape_of; simpl; lra |].
  destruct (Hrun dimParticle H0) as [[Ho _] | [Ho _]]; rewrite Ho; lra.
Qed.

(** ** The angle of [Math.atan2] *)

Lemma hypot_scaled (x y : R) :
  x <> 0 ->
  sqrt (x * x + y * y) = Rabs x * sqrt (1 + Rsqr (y / x)).
Proof.
  intros Hx.
  assert (H1 : 0 < 1 + Rsqr (y / x)) by (pose proof (Rle_0_sqr (y / x)); lra).
  apply sqrt_lem_1.
  - nra.
  - apply Rmult_le_pos; [apply Rabs_pos | apply sqrt_pos].
  - replace (Rabs x * sqrt (1 + Rsqr (y / x)) * (Rabs x * sqrt (1 + Rsqr (y / x))))
      with (Rabs x * Rabs x * (sqrt (1 + Rsqr (y / x)) * sqrt (1 + Rsqr (y / x))))
      by ring.
    rewrite sqrt_def by lra.
    replace (Rabs x * Rabs x) with (x * x)
      by (unfold Rabs; destruct (Rcase_abs x); ring).
    unfold Rsqr. field. exact Hx.
Qed.

(** The unit vector at the angle [atan2 y x], scaled by the length of
    [(x, y)], is [(x, y)]. *)
Lemma atan2_direction (y x : R) :
  cos (Math.atan2 y x) * sqrt (x * x + y * y) = x
  /\ sin (Math.atan2 y x) * sqrt (x * x + y * y) = y.
Proof.
  unfold Math.atan2.
  assert (Hs : 0 < sqrt (1 + Rsqr (y / x))).
  { apply sqrt_lt_R0. pose proof (Rle_0_sqr (y / x)). lra. }
  destruct (Rlt_dec 0 x) as [Hpos | Hnpos].
  - rewrite hypot_scaled by lra. rewrite cos_atan, sin_atan.
    rewrite Rabs_right by lra. split; field; lra.
  - destruct (Rlt_dec x 0) as [Hneg | Hnneg].
    + rewrite hypot_scaled by lra. rewrite Rabs_left by lra.
      destruct (Rle_dec 0 y).
      * rewrite neg_cos, neg_sin, cos_atan, sin_atan. split; field; lra.
      * replace (atan (y / x) - PI) with (- (- atan (y / x) + PI)) by ring.
        rewrite cos_neg, sin_neg, neg_cos, neg_sin, cos_neg, sin_neg.
        rewrite cos_atan, sin_atan. split; field; lra.
    + assert (Hx : x = 0) by lra. subst x.
      replace (0 * 0 + y * y) with (y * y) by ring.
      destruct (Rlt_dec 0 y) as [Hy | Hy].
      * rewrite cos_PI2, sin_PI2, sqrt_square by lra. split; ring.
      * destruct (Rlt_dec y 0) as [Hy' | Hy'].
        -- rewrite cos_neg, sin_neg, cos_PI2, sin_PI2.
           replace (y * y) with ((- y) * (- y)) by ring.
           rewrite sqrt_square by lra. split; ring.
        -- assert (Hy0 : y = 0) by lra. subst y.
           rewrite cos_0, sin_0. replace (0 * 0) with 0 by ring.
           rewrite sqrt_0. split; ring.
Qed.

Lemma unit_vector (a : R) : cos a * cos a + sin a * sin a = 1.
Proof. pose proof (sin2_cos2 a) as H. unfold Rsqr in H. lra. Qed.

(** ** One tick of the physics *)

Lemma inside_radius_dist (d2 : R) :
  0 <= d2 -> d2 < MOUSE_RADIUS * MOUSE_RADIUS -> sqrt d2 < MOUSE_RADIUS.
Proof.
  intros H0 H. unfold MOUSE_RADIUS in *.
  rewrite <- (sqrt_square 100) by lra.
  apply sqrt_lt_1_alt. lra.
Qed.

(** C2: one call of [update] does, in this order, the spring step, the
    mouse impulse (away from the mouse, of magnitude
    [(MOUSE_RADIUS - dist) / MOUSE_RADIUS] times the push strength 15,
    when the squared distance is below the squared radius, and none
    otherwise), the friction step and the integration step. *)
Theorem update_steps (p : Particle.t) (mouseX mouseY : R) :
  physics_step p mouseX mouseY (Particle.update p mouseX mouseY).
Proof.
  unfold physics_step, Particle.update.
  cbn [Particle.x Particle.y Particle.vx Particle.vy].
  set (mdx := Particle.x p - mouseX). set (mdy := Particle.y p - mouseY).
  set (d2 := mdx * mdx + mdy * mdy).
  assert (Hd2 : 0 <= d2) by (unfold d2; nra).
  unfold Rltb. destruct (Rlt_dec d2 (MOUSE_RADIUS * MOUSE_RADIUS)) as [Hin | Hout].
  - set (push := (MOUSE_RADIUS - Math.sqrt d2) / MOUSE_RADIUS * 15).
    exists (cos (Math.atan2 mdy mdx) * push), (sin (Math.atan2 mdy mdx) * push).
    split.
    + unfold mouse_impulse. fold mdx mdy d2. cbv zeta.
      change ((MOUSE_RADIUS - sqrt d2) / MOUSE_RADIUS * 15) with push.
      split; [intros _ | intros H; lra].
      pose proof (inside_radius_dist d2 Hd2 Hin) as Hlt.
      pose proof (atan2_direction mdy mdx) as [Hc Hs]. fold d2 in Hc, Hs.
      pose proof (unit_vector (Math.atan2 mdy mdx)) as Hu.
      assert (Hpush : 0 < push).
      { unfold push, Math.sqrt, MOUSE_RADIUS in *.
        apply Rmult_lt_0_compat; [| lra].
        apply Rdiv_lt_0_compat; lra. }
      split; [exact Hpush |]. split; [| split].
      * replace (cos (Math.atan2 mdy mdx) * push * (cos (Math.atan2 mdy mdx) * push)
                 + sin (Math.atan2 mdy mdx) * push * (sin (Math.atan2 mdy mdx) * push))
          with ((cos (Math.atan2 mdy mdx) * cos (Math.atan2 mdy mdx)
                 + sin (Math.atan2 mdy mdx) * sin (Math.atan2 mdy mdx))
                * (push * push)) by ring.
        rewrite Hu. ring.
      * rewrite <- Hc at 2. ring.
      * rewrite <- Hs at 2. ring.
    + simpl. repeat split; reflexivity.
  - exists 0, 0. split.
    + unfold mouse_impulse. fold mdx mdy d2. cbv zeta.
      split; [intros H; lra | intros _; split; reflexivity].
    + simpl. repeat split; ring.
Qed.

(** ** The box of the heart *)

Lemma cos_3a (t : R) : cos (3 * t) = 4 * cos t * cos t * cos t - 3 * cos t.
Proof.
  replace (3 * t) with (2 * t + t) by ring.
  rewrite cos_plus, sin_2a, cos_2a_cos.
  pose proof (unit_vector t) as Hu.
  assert (Hs : sin t * sin t = 1 - cos t * cos t) by lra.
  replace ((2 * cos t * cos t - 1) * cos t - 2 * sin t * cos t * sin t)
    with ((2 * cos t * cos t - 1) * cos t - 2 * (sin t * sin t) * cos t)
    by ring.
  rewrite Hs. ring.
Qed.

Lemma cos_4a (t : R) :
  cos (4 * t) = 8 * (cos t * cos t) * (cos t * cos t) - 8 * (cos t * cos t) + 1.
Proof.
  replace (4 * t) with (2 * (2 * t)) by ring.
  rewrite cos_2a_cos, cos_2a_cos. ring.
Qed.

(** The vertical coordinate of the curve is a polynomial in [cos t]. *)
Lemma heart_y_poly (t : R) :
  - (13 * cos t - 5 * cos (2 * t) - 2 * cos (3 * t) - cos (4 * t))
  = 2 * (cos t * cos t) * ((2 * cos t + 1) * (2 * cos t + 1))
    - 19 * cos t - 4.
Proof. rewrite cos_2a_cos, cos_3a, cos_4a. ring. Qed.

Lemma heart_y_range (t : R) :
  -17 <= - (13 * cos t - 5 * cos (2 * t) - 2 * cos (3 * t) - cos (4 * t)) <= 17.
Proof.
  rewrite heart_y_poly.
  pose proof (COS_bound t) as [Hlo Hhi].
  set (c := cos t) in *.
  split.
  - assert (Ha : 0 <= c * c) by apply Rle_0_sqr.
    assert (Hq : 0 <= (2 * c + 1) * (2 * c + 1)) by apply Rle_0_sqr.
    destruct (Rle_dec c (13 / 19)) as [Hc | Hc].
    + assert (0 <= 2 * (c * c) * ((2 * c + 1) * (2 * c + 1)))
        by (apply Rmult_le_pos; lra).
      lra.
    + assert (Ha' : 46 / 100 <= c * c) by nra.
      assert (Hq' : 56 / 10 <= (2 * c + 1) * (2 * c + 1)) by nra.
      set (a := c * c) in *. set (q := (2 * c + 1) * (2 * c + 1)) in *.
      assert (5 <= 2 * a * q) by nra.
      destruct (Rle_dec c (9 / 10)) as [Hc' | Hc']; [lra |].
      assert (Ha2 : 81 / 100 <= a) by (unfold a; nra).
      assert (Hq2 : 78 / 10 <= q) by (unfold q; nra).
      assert (12 <= 2 * a * q) by nra.
      lra.
  - replace (2 * (c * c) * ((2 * c + 1) * (2 * c + 1)) - 19 * c - 4)
      with (17 - (c + 1) * (21 - 2 * c - 8 * (c * (c * c)))) by ring.
    assert (Ha : 0 <= c * c <= 1) by nra.
    set (a := c * c) in *.
    assert (Hcube : c * a <= 1) by nra.
    assert (0 <= (c + 1) * (21 - 2 * c - 8 * (c * a)))
      by (apply Rmult_le_pos; lra).
    lra.
Qed.

Lemma heart_x_range (t : R) : -16 <= 16 * Math.pow (sin t) 3 <= 16.
Proof.
  unfold Math.pow. simpl.
  pose proof (SIN_bound t) as [Hlo Hhi].
  set (s := sin t) in *.
  assert (Hsq : 0 <= s * s <= 1) by nra.
  assert (-1 <= s * (s * (s * 1)) <= 1) by nra.
  lra.
Qed.

Lemma heartPoint_range (width height : nat) (r : R) :
  -224 <= Point.x (heartPoint width height r) - INR width / 2 <= 224
  /\ -238 <= Point.y (heartPoint width height r) - INR height / 2 <= 238.
Proof.
  unfold heartPoint, HEART_SCALE. cbn [Point.x Point.y].
  pose proof (heart_x_range (r * Math.PI * 2)) as Hx.
  pose proof (heart_y_range (r * Math.PI * 2)) as Hy.
  lra.
Qed.

Lemma heartLoop_points (n width height : nat) :
  forall tp q, In q (fst (heartLoop n width height tp)) ->
               exists r, q = heartPoint width height r.
Proof.
  induction n as [| k IH]; intros tp q Hq; [destruct Hq |].
  cbn [heartLoop] in Hq. unfold bind, random, ret in Hq.
  specialize (IH (fun n => tp (S n)) q).
  destruct (heartLoop k width height (fun n => tp (S n))) as [rest tp'].
  simpl in Hq, IH. destruct Hq as [Hq | Hq]; [eauto | auto].
Qed.

Lemma heartLoop_head (n width height : nat) (tp : Tape) :
  (0 < n)%nat ->
  In (heartPoint width height (tp 0%nat)) (fst (heartLoop n width height tp)).
Proof.
  destruct n as [| k]; [lia |]. intros _.
  cbn [heartLoop]. unfold bind, random, ret.
  destruct (heartLoop k width height (fun n => tp (S n))) as [rest tp'].
  left. reflexivity.
Qed.

Lemma heart_at_quarter (width height : nat) :
  Point.x (heartPoint width height (1 / 4)) = INR width / 2 + 224.
Proof.
  unfold heartPoint, HEART_SCALE, Math.pow, Math.PI. cbn [Point.x].
  replace (1 / 4 * PI * 2) with (PI / 2) by field.
  rewrite sin_PI2. simpl. ring.
Qed.

Lemma heart_at_half (width height : nat) :
  Point.y (heartPoint width height (1 / 2)) = INR height / 2 + 238.
Proof.
  unfold heartPoint, HEART_SCALE, Math.PI. cbn [Point.y].
  replace (1 / 2 * PI * 2) with PI by field.
  rewrite heart_y_poly, cos_PI. ring.
Qed.

Lemma heart_fits (width height : nat) (tp : Tape) (q : Point.t) :
  (448 <= width)%nat -> (476 <= height)%nat ->
  In q (fst (getHeartPoints width height tp)) ->
  in_viewport width height q.
Proof.
  intros Hw Hh Hq.
  apply heartLoop_points in Hq. destruct Hq as [r ->].
  destruct (heartPoint_range width height r) as [Hx Hy].
  apply le_INR in Hw, Hh.
  rewrite INR_IZR_INZ in Hw, Hh. simpl in Hw, Hh.
  unfold in_viewport. lra.
Qed.

(** C9, as stated, fails in its last part: a viewport of 448 x 500 is
    shorter than 588 pixels, and yet every point of the heart, for every
    tape of draws, is inside it. *)
Lemma heart_outside_counterexample :
  (500 < 588)%nat
  /\ forall tp q, In q (fst (getHeartPoints 448 500 tp)) ->
                  in_viewport 448 500 q.
Proof.
  split; [lia |]. intros tp q Hq.
  apply (heart_fits 448 500 tp q); [lia | lia | exact Hq].
Qed.

(** C9, amended: every point of [getHeartPoints] is within
    16 * HEART_SCALE = 224 of the centre horizontally and within
    21 * HEART_SCALE = 294 (indeed within 17 * HEART_SCALE = 238) of it
    vertically, whatever the viewport; so for a viewport narrower than 448
    or shorter than 476 pixels some draws put a heart point outside the
    viewport, and a viewport of at least 448 x 476 holds them all. *)
Theorem heart_box (width height : nat) :
  (forall tp q, In q (fst (getHeartPoints width height tp)) ->
     Rabs (Point.x q - INR width / 2) <= 16 * HEART_SCALE
     /\ Rabs (Point.y q - INR height / 2) <= 17 * HEART_SCALE
     /\ Rabs (Point.y q - INR height / 2) <= 21 * HEART_SCALE)
  /\ 16 * HEART_SCALE = 224 /\ 17 * HEART_SCALE = 238
  /\ 21 * HEART_SCALE = 294
  /\ ((width < 448)%nat \/ (height < 476)%nat ->
      exists tp q, valid_tape tp
                   /\ In q (fst (getHeartPoints width height tp))
                   /\ ~ in_viewport width height q)
  /\ ((448 <= width)%nat /\ (476 <= height)%nat ->
      forall tp q, In q (fst (getHeartPoints width height tp)) ->
                   in_viewport width height q).
Proof.
  split; [| split; [| split; [| split; [| split]]]];
    try (unfold HEART_SCALE; lra).
  - intros tp q Hq.
    apply heartLoop_points in Hq. destruct Hq as [r ->].
    destruct (heartPoint_range width height r) as [Hx Hy].
    unfold HEART_SCALE. repeat split; apply Rabs_le; lra.
  - assert (Hpos : (0 < PARTICLE_COUNT)%nat) by (unfold PARTICLE_COUNT; lia).
    intros [Hw | Hh].
    + exists (const_tape (1 / 4)), (heartPoint width height (1 / 4)).
      split; [apply valid_const_tape; lra |].
      split; [exact (heartLoop_head PARTICLE_COUNT width height
                       (const_tape (1 / 4)) Hpos) |].
      unfold in_viewport. rewrite heart_at_quarter.
      apply lt_INR in Hw. rewrite (INR_IZR_INZ 448) in Hw. simpl in Hw.
      lra.
    + exists (const_tape (1 / 2)), (heartPoint width height (1 / 2)).
      split; [apply valid_const_tape; lra |].
      split; [exact (heartLoop_head PARTICLE_COUNT width height
                       (const_tape (1 / 2)) Hpos) |].
      unfold in_viewport. rewrite heart_at_half.
      apply lt_INR in Hh. rewrite (INR_IZR_INZ 476) in Hh. simpl in Hh.
      lra.
  - intros [Hw Hh] tp q Hq. exact (heart_fits width height tp q Hw Hh Hq).
Qed.

(** ** The spring without the mouse *)

Lemma update_free (p : Particle.t) (mouseX mouseY : R) :
  MOUSE_RADIUS * MOUSE_RADIUS
  <= (Particle.x p - mouseX) * (Particle.x p - mouseX)
     + (Particle.y p - mouseY) * (Particle.y p - mouseY) ->
  let q := Particle.update p mouseX mouseY in
  Particle.vx q
  = (Particle.vx p + (Particle.targetX p - Particle.x p) * Particle.ease p)
    * Particle.friction p
  /\ Particle.vy q
     = (Particle.vy p + (Particle.targetY p - Particle.y p) * Particle.ease p)
       * Particle.friction p
  /\ Particle.x q = Particle.x p + Particle.vx q
  /\ Particle.y q = Particle.y p + Particle.vy q
  /\ Particle.targetX q = Particle.targetX p
  /\ Particle.targetY q = Particle.targetY p
  /\ Particle.ease q = Particle.ease p
  /\ Particle.friction q = Particle.friction p.
Proof.
  intros Hout. unfold Particle.update. simpl.
  rewrite Rltb_false by exact Hout. simpl.
  repeat split; reflexivity.
Qed.

Lemma energy_update (p : Particle.t) (mouseX mouseY : R) :
  MOUSE_RADIUS * MOUSE_RADIUS
  <= (Particle.x p - mouseX) * (Particle.x p - mouseX)
     + (Particle.y p - mouseY) * (Particle.y p - mouseY) ->
  energy (Particle.update p mouseX mouseY) = Particle.friction p * energy p.
Proof.
  intros Hout.
  destruct (update_free p mouseX mouseY Hout)
    as [Hvx [Hvy [Hx [Hy [Htx [Hty [He Hf]]]]]]].
  unfold energy. rewrite Hx, Hy, Htx, Hty, He, Hf, Hvx, Hvy. ring.
Qed.

Lemma energy_run (mice : list (R * R)) :
  forall p, mouse_clear p mice ->
    energy (Particle.run p mice)
    = Particle.friction p ^ List.length mice * energy p
    /\ Particle.friction (Particle.run p mice) = Particle.friction p
    /\ Particle.ease (Particle.run p mice) = Particle.ease p.
Proof.
  induction mice as [| [mx my] rest IH]; intros p Hclear.
  - simpl. repeat split; ring.
  - destruct Hclear as [Hout Hrest].
    destruct (IH _ Hrest) as [HE [Hf He]].
    cbn [Particle.run List.length pow].
    rewrite HE, Hf, He, (energy_update p mx my Hout).
    repeat split; try reflexivity. 
    replace (Particle.friction (Particle.update p mx my))
      with (Particle.friction p) by reflexivity.
    ring.
Qed.

(** With the friction and the eases of the constructor the form is
    positive definite. *)
Lemma energy_bounds (p : Particle.t) :
  Particle.friction p = 0.9 -> 0.05 <= Particle.ease p <= 0.1 ->
  speedSq p <= 1.25 * energy p /\ distSqToTarget p <= 25 * energy p.
Proof.
  intros Hf He. unfold speedSq, distSqToTarget, energy. rewrite Hf.
  set (e := Particle.ease p) in *.
  set (dx := Particle.x p - Particle.targetX p).
  set (dy := Particle.y p - Particle.targetY p).
  set (vx := Particle.vx p). set (vy := Particle.vy p).
  set (b := 1 - 0.9 - 0.9 * e).
  assert (Hb : 0.01 <= b <= 0.055) by (unfold b; lra).
  pose proof (Rle_0_sqr dx) as Hdx. pose proof (Rle_0_sqr dy) as Hdy.
  pose proof (Rle_0_sqr vx) as Hvx. pose proof (Rle_0_sqr vy) as Hvy.
  pose proof (Rle_0_sqr (dx + vx)) as Hsx.
  pose proof (Rle_0_sqr (dy + vy)) as Hsy.
  pose proof (Rle_0_sqr (0.1 * dx + vx)) as Htx.
  pose proof (Rle_0_sqr (0.1 * dy + vy)) as Hty.
  unfold Rsqr in *.
  split; nra.
Qed.

(** ** The spring overshoots *)

Lemma on_axis_step (p : Particle.t) (x0 v0 x1 v1 : R) :
  on_axis p x0 v0 ->
  v1 = (v0 + (100 - x0) * 0.05) * 0.9 -> x1 = x0 + v1 ->
  on_axis (Particle.update p (fst noMouse) (snd noMouse)) x1 v1.
Proof.
  intros [Hx [Hv [Hy [Hvy [Htx [Hty [He Hf]]]]]]] Hv1 Hx1.
  assert (Hout : MOUSE_RADIUS * MOUSE_RADIUS
                 <= (Particle.x p - fst noMouse) * (Particle.x p - fst noMouse)
                    + (Particle.y p - snd noMouse) * (Particle.y p - snd noMouse)).
  { rewrite Hy. unfold MOUSE_RADIUS, noMouse. simpl.
    pose proof (Rle_0_sqr (Particle.x p - -1000)) as H. unfold Rsqr in H.
    lra. }
  destruct (update_free p _ _ Hout)
    as [Hvx' [Hvy' [Hx' [Hy' [Htx' [Hty' [He' Hf']]]]]]].
  unfold on_axis.
  rewrite Hx', Hy', Hvx', Hvy', Htx', Hty', He', Hf'.
  rewrite Hx, Hv, Hy, Hvy, Htx, Hty, He, Hf.
  repeat split; lra.
Qed.

Lemma on_axis_clear (p : Particle.t) (x0 v0 : R) :
  on_axis p x0 v0 ->
  MOUSE_RADIUS * MOUSE_RADIUS
  <= (Particle.x p - fst noMouse) * (Particle.x p - fst noMouse)
     + (Particle.y p - snd noMouse) * (Particle.y p - snd noMouse).
Proof.
  intros [_ [_ [Hy _]]]. rewrite Hy. unfold MOUSE_RADIUS, noMouse. simpl.
  pose proof (Rle_0_sqr (Particle.x p - -1000)) as H. unfold Rsqr in H.
  lra.
Qed.

Lemma on_axis_dist (p : Particle.t) (x0 v0 : R) :
  on_axis p x0 v0 -> distSqToTarget p = (x0 - 100) * (x0 - 100).
Proof.
  intros [Hx [_ [Hy [_ [Htx [Hty _]]]]]].
  unfold distSqToTarget. rewrite Hx, Hy, Htx, Hty. ring.
Qed.

(** The first fourteen ticks of [farParticle] with the mouse away. *)
Lemma farParticle_trajectory :
  on_axis (Particle.run farParticle (repeat noMouse 8))
    99.0654417809123523046875
    14.6979373397929069921875
  /\ on_axis (Particle.run farParticle (repeat noMouse 14))
    145.9131228347068689909522441680291748046875
    1.9063815751597318626092421698602294921875
  /\ mouse_clear farParticle (repeat noMouse 14).
Proof.
  assert (S0 : on_axis farParticle 0 0)
    by (unfold on_axis, farParticle; simpl; repeat split; lra).
  set (p1 := Particle.update farParticle (fst noMouse) (snd noMouse)).
  assert (S1 : on_axis p1 4.5 4.5)
    by (apply (on_axis_step _ _ _ _ _ S0); lra).
  set (p2 := Particle.update p1 (fst noMouse) (snd noMouse)).
  assert (S2 : on_axis p2 12.8475 8.3475)
    by (apply (on_axis_step _ _ _ _ _ S1); lra).
  set (p3 := Particle.update p2 (fst noMouse) (snd noMouse)).
  assert (S3 : on_axis p3 24.2821125 11.4346125)
    by (apply (on_axis_step _ _ _ _ _ S2); lra).
  set (p4 := Particle.update p3 (fst noMouse) (snd noMouse)).
  assert (S4 : on_axis p4 37.9805686875 13.6984561875)
    by (apply (on_axis_step _ _ _ _ _ S3); lra).
  set (p5 := Particle.update p4 (fst noMouse) (snd noMouse)).
  assert (S5 : on_axis p5 53.1000536653125 15.1194849778125)
    by (apply (on_axis_step _ _ _ _ _ S4); lra).
  set (p6 := Particle.update p5 (fst noMouse) (snd noMouse)).
  assert (S6 : on_axis p6 68.8180877304046875 15.7180340650921875)
    by (apply (on_axis_step _ _ _ _ _ S5); lra).
  set (p7 := Particle.update p6 (fst noMouse) (snd noMouse)).
  assert (S7 : on_axis p7
            84.3675044411194453125
            15.5494167107147578125)
    by (apply (on_axis_step _ _ _ _ _ S6); lra).
  set (p8 := Particle.update p7 (fst noMouse) (snd noMouse)).
  assert (S8 : on_axis p8
            99.0654417809123523046875
            14.6979373397929069921875)
    by (apply (on_axis_step _ _ _ _ _ S7); lra).
  set (p9 := Particle.update p8 (fst noMouse) (snd noMouse)).
  assert (S9 : on_axis p9
            112.3356405065849127439453125
            13.2701987256725604392578125)
    by (apply (on_axis_step _ _ _ _ _ S8); lra).
  set (p10 := Particle.update p9 (fst noMouse) (snd noMouse)).
  assert (S10 : on_axis p10
            123.7237155368938960657998046875
            11.3880750303089833218544921875)
    by (apply (on_axis_step _ _ _ _ _ S9); lra).
  set (p11 := Particle.update p10 (fst noMouse) (snd noMouse)).
  assert (S11 : on_axis p11
            132.9054158650117557325078564453125
            9.1817003281178596667080517578125)
    by (apply (on_axis_step _ _ _ _ _ S10); lra).
  set (p12 := Particle.update p11 (fst noMouse) (snd noMouse)).
  assert (S12 : on_axis p12
            139.6882024463923004245822494873046875
            6.7827865813805446920743930419921875)
    by (apply (on_axis_step _ _ _ _ _ S11); lra).
  set (p13 := Particle.update p12 (fst noMouse) (snd noMouse)).
  assert (S13 : on_axis p13
            144.0067412595471371283430019981689453125
            4.3185388131548367037607525108642578125)
    by (apply (on_axis_step _ _ _ _ _ S12); lra).
  set (p14 := Particle.update p13 (fst noMouse) (snd noMouse)).
  assert (S14 : on_axis p14
            145.9131228347068689909522441680291748046875
            1.9063815751597318626092421698602294921875)
    by (apply (on_axis_step _ _ _ _ _ S13); lra).
  split; [exact S8 |]. split; [exact S14 |].
  cbn [repeat mouse_clear noMouse].
  pose proof (on_axis_clear _ _ _ S0) as C0.
  pose proof (on_axis_clear _ _ _ S1) as C1.
  pose proof (on_axis_clear _ _ _ S2) as C2.
  pose proof (on_axis_clear _ _ _ S3) as C3.
  pose proof (on_axis_clear _ _ _ S4) as C4.
  pose proof (on_axis_clear _ _ _ S5) as C5.
  pose proof (on_axis_clear _ _ _ S6) as C6.
  pose proof (on_axis_clear _ _ _ S7) as C7.
  pose proof (on_axis_clear _ _ _ S8) as C8.
  pose proof (on_axis_clear _ _ _ S9) as C9.
  pose proof (on_axis_clear _ _ _ S10) as C10.
  pose proof (on_axis_clear _ _ _ S11) as C11.
  pose proof (on_axis_clear _ _ _ S12) as C12.
  pose proof (on_axis_clear _ _ _ S13) as C13.
  unfold noMouse in *. cbn [fst snd] in *.
  repeat (split; [assumption |]). exact I.
Qed.

(** C8, as stated, fails: the spring is underdamped.  [farParticle]
    starts at rest 100 pixels from its target with the mouse away; after
    8 ticks it is within 1 pixel of the target, and 6 ticks later it is
    more than 45 pixels beyond it. *)
Lemma distance_overshoot_counterexample :
  mouse_clear farParticle (repeat noMouse 14)
  /\ distToTarget farParticle = 100
  /\ distToTarget (Particle.run farParticle (repeat noMouse 8)) < 1
  /\ 45 < distToTarget (Particle.run farParticle (repeat noMouse 14)).
Proof.
  destruct farParticle_trajectory as [S8 [S14 Hclear]].
  split; [exact Hclear |]. unfold distToTarget.
  rewrite (on_axis_dist _ _ _ S8), (on_axis_dist _ _ _ S14).
  split; [| split].
  - unfold distSqToTarget, farParticle. simpl.
    replace ((0 - 100) * (0 - 100) + (0 - 0) * (0 - 0)) with (100 * 100)
      by ring.
    apply sqrt_square. lra.
  - apply Rlt_le_trans with (sqrt 1); [| rewrite sqrt_1; lra].
    apply sqrt_lt_1_alt. split; [apply Rle_0_sqr | lra].
  - apply Rle_lt_trans with (sqrt (45 * 45));
      [rewrite sqrt_square; lra |].
    apply sqrt_lt_1_alt. lra.
Qed.

Lemma friction_pow_range (n : nat) : 0 < 0.9 ^ n <= 1.
Proof. induction n as [| k IH]; simpl; lra. Qed.

(** C8, amended: with a fixed target, the friction 0.9 and an ease in
    [0.05, 0.1], and the mouse at or beyond the radius at every tick, each
    tick multiplies the energy of the particle by the friction; so over
    all ticks the speed is bounded (by the square root of 1.25 times the
    initial energy) and the distance to the target is under an envelope
    that decays geometrically, without decreasing at every tick. *)
Theorem spring_energy_decay (p : Particle.t) (mice : list (R * R)) :
  Particle.friction p = 0.9 ->
  0.05 <= Particle.ease p <= 0.1 ->
  mouse_clear p mice ->
  let q := Particle.run p mice in
  energy q = 0.9 ^ List.length mice * energy p
  /\ 0 <= energy q <= energy p
  /\ speedSq q <= 1.25 * energy q
  /\ distSqToTarget q <= 25 * energy q
  /\ speed q <= sqrt (1.25 * energy p)
  /\ distToTarget q <= sqrt (25 * (0.9 ^ List.length mice * energy p)).
Proof.
  intros Hf He Hclear q.
  destruct (energy_run mice p Hclear) as [HE [Hfq Heq]].
  fold q in HE, Hfq, Heq. rewrite Hf in HE, Hfq. rewrite <- Heq in He.
  destruct (energy_bounds q Hfq He) as [Hs Hd].
  destruct (energy_bounds p Hf ltac:(rewrite <- Heq; exact He)) as [Hs0 _].
  pose proof (friction_pow_range (List.length mice)) as Hpow.
  assert (Hs2 : 0 <= speedSq q)
    by (unfold speedSq; pose proof (Rle_0_sqr (Particle.vx q));
        pose proof (Rle_0_sqr (Particle.vy q)); unfold Rsqr in *; lra).
  assert (Hs20 : 0 <= speedSq p)
    by (unfold speedSq; pose proof (Rle_0_sqr (Particle.vx p));
        pose proof (Rle_0_sqr (Particle.vy p)); unfold Rsqr in *; lra).
  assert (HEq : 0 <= energy q <= energy p) by (rewrite HE; nra).
  split; [exact HE |]. split; [exact HEq |].
  split; [exact Hs |]. split; [exact Hd |].
  split.
  - unfold speed. apply sqrt_le_1_alt. lra.
  - unfold distToTarget. apply sqrt_le_1_alt. rewrite <- HE. exact Hd.
Qed.

Lemma spring_energy_decay_witness :
  let q := Particle.run farParticle [noMouse; noMouse] in
  energy q = 0.9 ^ 2 * energy farParticle
  /\ 0 <= energy q <= energy farParticle
  /\ speedSq q <= 1.25 * energy q
  /\ distSqToTarget q <= 25 * energy q
  /\ speed q <= sqrt (1.25 * energy farParticle)
  /\ distToTarget q <= sqrt (25 * (0.9 ^ 2 * energy farParticle)).
Proof.
  apply (spring_energy_decay farParticle [noMouse; noMouse]).
  - reflexivity.
  - simpl. lra.
  - assert (S0 : on_axis farParticle 0 0)
      by (unfold on_axis, farParticle; simpl; repeat split; lra).
    pose proof (on_axis_step _ 0 0 4.5 4.5 S0 ltac:(lra) ltac:(lra)) as S1.
    split; [exact (on_axis_clear _ _ _ S0) |].
    split; [exact (on_axis_clear _ _ _ S1) | exact I].
Defined.

(** * Further properties of the code *)

(** ** What the scan collects *)

Lemma gridCoords_spec (bound v : nat) :
  In v (gridCoords bound) <-> (v < bound)%nat /\ (v mod 2 = 0)%nat.
Proof.
  split.
  - intros H. split; [now apply gridCoords_lt |].
    unfold gridCoords, step in H. apply in_map_iff in H.
    destruct H as [k [Hk _]]. subst v. apply Nat.Div0.mod_mul.
  - intros [Hlt Hmod]. unfold gridCoords, step.
    apply in_map_iff. exists (v / 2)%nat.
    pose proof (Nat.div_mod_eq v 2) as Hv.
    split; [lia |].
    apply in_seq. rewrite Nat.add_0_l. split; [lia |].
    replace (bound + 2 - 1)%nat with (bound + 1)%nat by lia.
    pose proof (Nat.div_mod_eq (bound + 1) 2) as Hb.
    pose proof (Nat.mod_upper_bound (bound + 1) 2 ltac:(lia)) as Hm.
    lia.
Qed.

Lemma visit_points (imageData : list Z) (width : nat) (s : Scan) (y x : nat) :
  sampledPoints (visit imageData width s y x)
  = sampledPoints s ++ (if isOpaque imageData width x y then [(x, y)] else []).
Proof.
  unfold visit, isOpaque.
  destruct (nth_error imageData ((y * width + x) * 4 + 3)) as [alpha |].
  - destruct (128 <? alpha)%Z; simpl; [reflexivity | now rewrite app_nil_r].
  - now rewrite app_nil_r.
Qed.

Lemma row_points (imageData : list Z) (width y : nat) (xs : list nat) :
  forall s,
    sampledPoints
      (fold_left (fun s' x => visit imageData width s' y x) xs s)
    = sampledPoints s
      ++ map (fun x => (x, y)) (filter (fun x => isOpaque imageData width x y) xs).
Proof.
  induction xs as [| x xs IH]; intros s; simpl.
  - now rewrite app_nil_r.
  - rewrite IH, visit_points.
    destruct (isOpaque imageData width x y); simpl.
    + now rewrite <- app_assoc.
    + now rewrite app_nil_r.
Qed.

Lemma rows_points (imageData : list Z) (width : nat) (ys : list nat) :
  forall s,
    sampledPoints (fold_left (scanRow imageData width) ys s)
    = sampledPoints s
      ++ flat_map
           (fun y => map (fun x => (x, y))
                       (filter (fun x => isOpaque imageData width x y)
                          (gridCoords width)))
           ys.
Proof.
  induction ys as [| y ys IH]; intros s; simpl.
  - now rewrite app_nil_r.
  - rewrite IH. unfold scanRow. rewrite row_points.
    now rewrite <- app_assoc.
Qed.

Lemma scan_points_eq (imageData : list Z) (width height : nat) :
  sampledPoints (scan imageData width height)
  = flat_map
      (fun y => map (fun x => (x, y))
                  (filter (fun x => isOpaque imageData width x y)
                     (gridCoords width)))
      (gridCoords height).
Proof. unfold scan. rewrite rows_points. reflexivity. Qed.

Lemma candidate_on_grid (imageData : list Z) (width height x y : nat) :
  In (x, y) (sampledPoints (scan imageData width height)) ->
  (x < width)%nat /\ (y < height)%nat
  /\ (x mod 2 = 0)%nat /\ (y mod 2 = 0)%nat
  /\ isOpaque imageData width x y = true.
Proof.
  rewrite scan_points_eq, in_flat_map.
  intros [y' [Hy' Hin]]. apply in_map_iff in Hin.
  destruct Hin as [x' [Heq Hx']]. inversion Heq; subst x' y'.
  apply filter_In in Hx'. destruct Hx' as [Hx' Hop].
  apply gridCoords_spec in Hx', Hy'. tauto.
Qed.

(** X1: The candidates of the scan are the pixels of the grid of stride 2,
    row by row and from left to right in each row, whose alpha exceeds
    128: a pixel is a candidate exactly when it is inside the canvas, has
    two even coordinates and passes the test. *)
Theorem scan_candidates (imageData : list Z) (width height : nat) :
  sampledPoints (scan imageData width height)
  = flat_map
      (fun y => map (fun x => (x, y))
                  (filter (fun x => isOpaque imageData width x y)
                     (gridCoords width)))
      (gridCoords height)
  /\ forall x y,
       In (x, y) (sampledPoints (scan imageData width height))
       <-> (x < width)%nat /\ (y < height)%nat
           /\ (x mod 2 = 0)%nat /\ (y mod 2 = 0)%nat
           /\ isOpaque imageData width x y = true.
Proof.
  split; [apply scan_points_eq |].
  intros x y. split; [apply candidate_on_grid |].
  intros [Hx [Hy [Hxe [Hye Hop]]]].
  rewrite scan_points_eq, in_flat_map. exists y.
  split; [apply gridCoords_spec; tauto |].
  apply in_map_iff. exists x. split; [reflexivity |].
  apply filter_In. split; [apply gridCoords_spec; tauto | exact Hop].
Qed.

(** X2: A glyph that covers no pixel of the grid is not seen: in a
    viewport of at least 1x1 pixels, when every pixel that passes the
    test has an odd coordinate, the scan is empty and [getTextPoints]
    returns the heart. *)
Theorem off_grid_glyph_is_heart (host : Host) (ctx : Raster) (text : string)
  (width height : nat) (tp : Tape) :
  getContext2d host = Some ctx ->
  (1 <= width)%nat -> (1 <= height)%nat ->
  (forall x y,
     (x < width)%nat -> (y < height)%nat ->
     isOpaque (ctx (toUpperCase host text) (fontSize text width) width height)
       width x y = true ->
     (x mod 2 = 1)%nat \/ (y mod 2 = 1)%nat) ->
  getTextPoints host text width height tp
  = (Returned (fst (getHeartPoints width height tp)),
     snd (getHeartPoints width height tp)).
Proof.
  intros Hctx Hw Hh Hodd. unfold getTextPoints.
  rewrite Hctx, (has_size width height Hw Hh). cbv zeta.
  destruct (sampledPoints (textScan host ctx text width height))
    as [| [x y] cs] eqn:Es.
  - unfold bind, ret. now destruct (getHeartPoints width height tp).
  - exfalso.
    assert (Hin : In (x, y) (sampledPoints (textScan host ctx text width height)))
      by (rewrite Es; now left).
    unfold textScan in Hin.
    apply candidate_on_grid in Hin.
    destruct Hin as [Hx [Hy [Hxe [Hye Hop]]]].
    destruct (Hodd x y Hx Hy Hop); lia.
Qed.

Lemma off_grid_glyph_is_heart_witness :
  getTextPoints (dotHost 3 2) "i" 4 4 (const_tape 0)
  = (Returned (fst (getHeartPoints 4 4 (const_tape 0))),
     snd (getHeartPoints 4 4 (const_tape 0))).
Proof.
  apply (off_grid_glyph_is_heart (dotHost 3 2) (dotRaster 3 2)).
  - reflexivity.
  - lia.
  - lia.
  - intros x y Hx Hy H.
    assert (Cx : (x = 0 \/ x = 1 \/ x = 2 \/ x = 3)%nat) by lia.
    assert (Cy : (y = 0 \/ y = 1 \/ y = 2 \/ y = 3)%nat) by lia.
    destruct Cx as [-> | [-> | [-> | ->]]];
      destruct Cy as [-> | [-> | [-> | ->]]];
      vm_compute in H; try discriminate H; left; reflexivity.
Defined.

(** ** The heart sampler, draw by draw *)

Lemma heartLoop_spec (n width height : nat) :
  forall tp,
    fst (heartLoop n width height tp)
    = map (fun i => heartPoint width height (tp i)) (seq 0 n)
    /\ forall k, snd (heartLoop n width height tp) k = tp (n + k)%nat.
Proof.
  induction n as [| m IH]; intros tp.
  - split; reflexivity.
  - cbn [heartLoop]. unfold bind, random, ret.
    destruct (IH (fun n => tp (S n))) as [Hl Ht].
    destruct (heartLoop m width height (fun n => tp (S n))) as [rest tp'].
    simpl in Hl, Ht. split.
    + cbn [fst seq map]. rewrite Hl, <- seq_shift, map_map. reflexivity.
    + intros k. cbn [snd]. rewrite Ht. reflexivity.
Qed.

(** X3: [getHeartPoints] takes exactly [PARTICLE_COUNT] draws, and its point
    of index [i] is the point of the curve at the parameter given by the
    draw of index [i] alone. *)
Theorem getHeartPoints_draws (width height : nat) (tp : Tape) :
  fst (getHeartPoints width height tp)
  = map (fun i => heartPoint width height (tp i)) (seq 0 PARTICLE_COUNT)
  /\ forall k, snd (getHeartPoints width height tp) k
               = tp (PARTICLE_COUNT + k)%nat.
Proof. apply heartLoop_spec. Qed.

Lemma heartPoint_mirror (width height : nat) (r : R) :
  mirrored width (heartPoint width height r) (heartPoint width height (1 - r)).
Proof.
  unfold mirrored, heartPoint, Math.PI, Math.pow. cbn [Point.x Point.y].
  replace ((1 - r) * PI * 2) with (2 * PI - r * PI * 2) by ring.
  set (t := r * PI * 2).
  assert (Hs : sin (2 * PI - t) = - sin t)
    by (rewrite sin_minus, sin_2PI, cos_2PI; ring).
  assert (Hc : cos (2 * PI - t) = cos t)
    by (rewrite cos_minus, sin_2PI, cos_2PI; ring).
  rewrite !heart_y_poly, Hs, Hc. split; [simpl; ring | reflexivity].
Qed.

(** X4: The heart is symmetric about the vertical line through the centre of
    the viewport: replacing every draw [r] by [1 - r] replaces every
    point by its mirror image. *)
Theorem heart_symmetry (width height : nat) (tp : Tape) :
  Forall2 (mirrored width)
    (fst (getHeartPoints width height tp))
    (fst (getHeartPoints width height (fun n => 1 - tp n))).
Proof.
  unfold getHeartPoints.
  rewrite (proj1 (heartLoop_spec PARTICLE_COUNT width height tp)).
  rewrite (proj1 (heartLoop_spec PARTICLE_COUNT width height
                    (fun n => 1 - tp n))).
  induction (seq 0 PARTICLE_COUNT) as [| i l IH]; simpl; constructor.
  - apply heartPoint_mirror.
  - exact IH.
Qed.

(** ** The choice of the shape *)

Lemma trimStart_allSpace (s : string) :
  allSpace s = true -> trimStart s = EmptyString.
Proof.
  induction s as [| c r IH]; simpl; [reflexivity |].
  intros H. apply andb_prop in H. destruct H as [Hc Hr].
  rewrite Hc. now apply IH.
Qed.

Lemma trimEnd_nonempty (c : Ascii.ascii) (r : string) :
  isSpace c = false -> trimEnd (String c r) <> EmptyString.
Proof.
  intros Hc. simpl. destruct (trimEnd r); [rewrite Hc |]; discriminate.
Qed.

Lemma trim_empty_iff (s : string) :
  String.eqb (trim s) EmptyString = allSpace s.
Proof.
  unfold trim. induction s as [| c r IH]; [reflexivity |].
  cbn [trimStart allSpace]. destruct (isSpace c) eqn:Hc.
  - simpl. exact IH.
  - destruct (trimEnd (String c r)) eqn:E.
    + exfalso. now apply (trimEnd_nonempty c r Hc).
    + reflexivity.
Qed.

(** X5: The shape sampler samples the heart exactly for the texts that
    [trim] empties, those made only of the code units 9 to 13, 32 and
    160 (the empty text among them), whatever the host, and the text
    otherwise. *)
Theorem newPoints_choice (host : Host) (text : string) (width height : nat)
  (tp : Tape) :
  newPoints host text width height tp
  = if allSpace text
    then (Returned (fst (getHeartPoints width height tp)),
          snd (getHeartPoints width height tp))
    else getTextPoints host text width height tp.
Proof.
  unfold newPoints. rewrite trim_empty_iff.
  destruct (allSpace text); [| reflexivity].
  unfold bind, ret. now destruct (getHeartPoints width height tp).
Qed.

(** ** The font size *)

(** X6: The font size is between 0 and [BASE_TEXT_SIZE]; times the number of
    characters (1 for the empty text) it is at most 1.4 times the width
    of the viewport; and it is [BASE_TEXT_SIZE] as soon as that leaves
    room. *)
Theorem fontSize_bounds (text : string) (width : nat) :
  let n := INR (Nat.max 1 (String.length text)) in
  0 <= fontSize text width <= BASE_TEXT_SIZE
  /\ fontSize text width * n <= 1.4 * INR width
  /\ (BASE_TEXT_SIZE * n <= 1.4 * INR width ->
      fontSize text width = BASE_TEXT_SIZE).
Proof.
  intros n. unfold fontSize, Math.min, BASE_TEXT_SIZE.
  assert (Hdiv : (if (String.length text =? 0)%nat then 1%nat
                  else String.length text) = Nat.max 1 (String.length text)).
  { destruct (Nat.eqb_spec (String.length text) 0); lia. }
  rewrite Hdiv. fold n.
  assert (Hn : 1 <= n).
  { unfold n. change 1 with (INR 1). apply le_INR. lia. }
  assert (Hw : 0 <= INR width) by apply pos_INR.
  assert (Hq : INR width / n * 1.4 * n = 1.4 * INR width) by (field; lra).
  assert (Hq0 : 0 <= INR width / n * 1.4).
  { apply Rmult_le_pos; [| lra].
    apply Rmult_le_pos; [exact Hw |].
    apply Rlt_le, Rinv_0_lt_compat. lra. }
  unfold Rmin. destruct (Rle_dec 150 (INR width / n * 1.4)) as [H | H].
  - repeat split; try lra. nra.
  - repeat split; try lra. intros Hroom. nra.
Qed.

(** ** Where the targets of a text lie *)

Lemma js_index_In {A : Type} (arr : list A) (i : Z) (a : A) :
  js_index arr i = Some a -> In a arr.
Proof.
  unfold js_index. destruct (i <? 0)%Z; [discriminate |].
  apply nth_error_In.
Qed.

Lemma textLoop_points (n : nat) (sampled : list (nat * nat)) (offX offY : R) :
  forall tp l,
    valid_tape tp ->
    fst (textLoop n sampled offX offY tp) = Returned l ->
    forall q, In q l ->
      exists c jx jy,
        In c sampled /\ 0 <= jx < 1 /\ 0 <= jy < 1
        /\ Point.x q = INR (fst c) + offX + (jx - 0.5) * 1.5
        /\ Point.y q = INR (snd c) + offY + (jy - 0.5) * 1.5.
Proof.
  induction n as [| k IH]; intros tp l Hv Hl q Hq.
  - simpl in Hl. inversion Hl; subst l. destruct Hq.
  - cbn [textLoop] in Hl. unfold bind at 1 in Hl. unfold random at 1 in Hl.
    destruct (js_index sampled
                (Math.floor (tp 0%nat * INR (List.length sampled))))
      as [[px py] |] eqn:Hidx; [| discriminate Hl].
    unfold bind, random in Hl.
    set (tp3 := fun n : nat => tp (S (S (S n)))) in Hl.
    specialize (IH tp3).
    destruct (textLoop k sampled offX offY tp3) as [[rest |] tp'];
      [| discriminate Hl].
    simpl in Hl. inversion Hl; subst l. clear Hl.
    destruct Hq as [Hq | Hq].
    + subst q. exists (px, py), (tp 1%nat), (tp 2%nat).
      split; [exact (js_index_In _ _ _ Hidx) |].
      split; [apply Hv |]. split; [apply Hv |]. split; reflexivity.
    + apply (IH rest); [intros m; apply Hv | reflexivity | exact Hq].
Qed.

(** X7: With a 2D context and a scan that has a candidate, every target of
    [getTextPoints] is a candidate moved by the centring offset and by a
    jitter below 0.75 pixel on each axis: it lies in the bounding box of
    the text, centred in the viewport and widened by 0.75, and so within
    a quarter of a pixel of the viewport. *)
Theorem text_targets_in_box (host : Host) (ctx : Raster) (text : string)
  (width height : nat) (tp : Tape) :
  getContext2d host = Some ctx ->
  valid_tape tp ->
  let s := textScan host ctx text width height in
  sampledPoints s <> [] ->
  exists l,
    fst (getTextPoints host text width height tp) = Returned l
    /\ forall q, In q l ->
         let textWidth := INR (maxX s) - INR (minX s) in
         let textHeight := INR (maxY s) - INR (minY s) in
         (INR width - textWidth) / 2 - 0.75 <= Point.x q
           < (INR width + textWidth) / 2 + 0.75
         /\ (INR height - textHeight) / 2 - 0.75 <= Point.y q
           < (INR height + textHeight) / 2 + 0.75
         /\ -0.25 <= Point.x q < INR width + 0.25
         /\ -0.25 <= Point.y q < INR height + 0.25.
Proof.
  intros Hctx Hv s Hne.
  destruct (textLoop_length PARTICLE_COUNT (sampledPoints s)
              (offsetX width s) (offsetY height s) tp Hv Hne) as [l [Hl _]].
  exists l. split.
  - assert (Hsize : (1 <= width)%nat /\ (1 <= height)%nat).
    { destruct (scan_keeps_inv
                  (ctx (toUpperCase host text) (fontSize text width)
                     width height) width height) as [Hin _].
      fold (textScan host ctx text width height) in Hin. fold s in Hin.
      destruct (sampledPoints s) as [| c cs]; [congruence |].
      destruct (Hin c (or_introl eq_refl)). lia. }
    unfold getTextPoints.
    rewrite Hctx, (has_size width height (proj1 Hsize) (proj2 Hsize)).
    fold s. destruct (sampledPoints s); [congruence | exact Hl].
  - intros q Hq tw th.
    destruct (textLoop_points _ _ _ _ tp l Hv Hl q Hq)
      as [[cx cy] [jx [jy [Hc [Hjx [Hjy [Ex Ey]]]]]]].
    cbn [fst snd] in Ex, Ey.
    destruct (scan_keeps_inv
                (ctx (toUpperCase host text) (fontSize text width) width height)
                width height) as [Hin [_ Hbox]].
    fold (textScan host ctx text width height) in Hin, Hbox. fold s in Hin, Hbox.
    destruct (Hbox Hne) as [Hall [_ [[p2 [I2 B2]] [_ [p4 [I4 B4]]]]]].
    destruct (Hall _ Hc) as [[Hx1 Hx2] [Hy1 Hy2]]. cbn [fst snd] in *.
    destruct (Hin _ I2) as [Hmx _]. destruct (Hin _ I4) as [_ Hmy].
    rewrite B2 in Hmx. rewrite B4 in Hmy.
    apply le_INR in Hx1, Hx2, Hy1, Hy2.
    assert (Hw : INR (maxX s) + 1 <= INR width)
      by (rewrite <- S_INR; apply le_INR; lia).
    assert (Hh : INR (maxY s) + 1 <= INR height)
      by (rewrite <- S_INR; apply le_INR; lia).
    pose proof (pos_INR (minX s)) as Hm0. pose proof (pos_INR (minY s)) as Hm1.
    rewrite Ex, Ey. unfold offsetX, offsetY, tw, th.
    repeat split; lra.
Qed.

Lemma text_targets_in_box_witness :
  let s := textScan ellHost ellRaster "L" 20 20 in
  exists l,
    fst (getTextPoints ellHost "L" 20 20 (const_tape 0)) = Returned l
    /\ forall q, In q l ->
         let textWidth := INR (maxX s) - INR (minX s) in
         let textHeight := INR (maxY s) - INR (minY s) in
         (INR 20 - textWidth) / 2 - 0.75 <= Point.x q
           < (INR 20 + textWidth) / 2 + 0.75
         /\ (INR 20 - textHeight) / 2 - 0.75 <= Point.y q
           < (INR 20 + textHeight) / 2 + 0.75
         /\ -0.25 <= Point.x q < INR 20 + 0.25
         /\ -0.25 <= Point.y q < INR 20 + 0.25.
Proof.
  apply (text_targets_in_box ellHost ellRaster "L" 20 20 (const_tape 0)).
  - reflexivity.
  - apply valid_const_tape. lra.
  - vm_compute. discriminate.
Defined.

(** ** Tapes through the computations *)

Lemma keeps_valid_ret {A : Type} (a : A) : keeps_valid (ret a).
Proof. intros tp H. exact H. Qed.

Lemma keeps_valid_random : keeps_valid random.
Proof. intros tp H n. apply H. Qed.

Lemma keeps_valid_bind {A B : Type} (m : Rand A) (k : A -> Rand B) :
  keeps_valid m -> (forall a, keeps_valid (k a)) -> keeps_valid (bind m k).
Proof.
  intros Hm Hk tp Hv. unfold bind.
  specialize (Hm tp Hv). destruct (m tp) as [a tp']. now apply Hk.
Qed.

Lemma keeps_valid_heartLoop (n width height : nat) :
  keeps_valid (heartLoop n width height).
Proof.
  induction n as [| k IH]; cbn [heartLoop]; [apply keeps_valid_ret |].
  apply keeps_valid_bind; [apply keeps_valid_random | intros r].
  apply keeps_valid_bind; [exact IH | intros rest]. apply keeps_valid_ret.
Qed.

Lemma keeps_valid_textLoop (n : nat) (sampled : list (nat * nat))
  (offX offY : R) : keeps_valid (textLoop n sampled offX offY).
Proof.
  induction n as [| k IH]; cbn [textLoop]; [apply keeps_valid_ret |].
  apply keeps_valid_bind; [apply keeps_valid_random | intros r].
  destruct (js_index sampled _) as [[px py] |]; [| apply keeps_valid_ret].
  apply keeps_valid_bind; [apply keeps_valid_random | intros jx].
  apply keeps_valid_bind; [apply keeps_valid_random | intros jy].
  apply keeps_valid_bind; [exact IH | intros [l |]]; apply keeps_valid_ret.
Qed.

Lemma keeps_valid_newPoints (host : Host) (text : string)
  (width height : nat) : keeps_valid (newPoints host text width height).
Proof.
  unfold newPoints, getTextPoints, getHeartPoints.
  destruct (String.eqb (trim text) EmptyString).
  - apply keeps_valid_bind; [apply keeps_valid_heartLoop | intros l].
    apply keeps_valid_ret.
  - destruct (getContext2d host) as [ctx |]; [| apply keeps_valid_ret].
    destruct ((width =? 0) || (height =? 0))%nat; [apply keeps_valid_ret |].
    cbv zeta. destruct (sampledPoints _).
    + apply keeps_valid_bind; [apply keeps_valid_heartLoop | intros l].
      apply keeps_valid_ret.
    + apply keeps_valid_textLoop.
Qed.

Lemma keeps_valid_constructor (innerW innerH : nat) (x0 y0 : R) :
  keeps_valid (Particle.constructor innerW innerH x0 y0).
Proof.
  unfold Particle.constructor.
  repeat (apply keeps_valid_bind; [apply keeps_valid_random | intros ?]).
  apply keeps_valid_ret.
Qed.

Lemma keeps_valid_createParticles (innerW innerH : nat) (pts : list Point.t) :
  keeps_valid (createParticles innerW innerH pts).
Proof.
  induction pts as [| q rest IH]; cbn [createParticles];
    [apply keeps_valid_ret |].
  apply keeps_valid_bind; [apply keeps_valid_constructor | intros p].
  apply keeps_valid_bind; [exact IH | intros ps]. apply keeps_valid_ret.
Qed.

Lemma keeps_valid_updateTargets (host : Host) (app : App) :
  keeps_valid (updateTargets host app).
Proof.
  unfold updateTargets.
  apply keeps_valid_bind; [apply keeps_valid_newPoints | intros [l |]].
  - destruct (forEachTarget 0 l (particles app)). apply keeps_valid_ret.
  - apply keeps_valid_ret.
Qed.

Lemma keeps_valid_handleResize (host : Host) (app : App) :
  keeps_valid (handleResize host app).
Proof.
  unfold handleResize. cbn [particles].
  destruct (particles app).
  - apply keeps_valid_bind; [apply keeps_valid_heartLoop | intros l].
    apply keeps_valid_bind; [apply keeps_valid_createParticles | intros ps].
    apply keeps_valid_ret.
  - apply keeps_valid_updateTargets.
Qed.

Lemma keeps_valid_handle (host : Host) (ev : Event) (app : App) :
  keeps_valid (handle host ev app).
Proof. destruct ev; apply keeps_valid_handleResize. Qed.

(** ** The constructor *)

Lemma constructor_is_fresh (innerW innerH : nat) (x0 y0 : R) (tp : Tape) :
  valid_tape tp ->
  fresh innerW innerH (fst (Particle.constructor innerW innerH x0 y0 tp)).
Proof.
  intros Hv.
  pose proof (Hv 0%nat) as H0. pose proof (Hv 1%nat) as H1.
  pose proof (Hv 2%nat) as H2. pose proof (Hv 3%nat) as H3.
  pose proof (Hv 4%nat) as H4. pose proof (Hv 5%nat) as H5.
  pose proof (Hv 6%nat) as H6. pose proof (Hv 7%nat) as H7.
  pose proof (Hv 8%nat) as H8.
  pose proof (pos_INR innerW) as Hw. pose proof (pos_INR innerH) as Hh.
  unfold fresh, Particle.constructor, bind, random, ret.
  cbn [fst Particle.x Particle.y Particle.vx Particle.vy Particle.baseSize
       Particle.size Particle.color Particle.friction Particle.ease
       Particle.opacity Particle.twinkleSpeed].
  repeat match goal with |- _ /\ _ => split end;
    try lra; try nra; try reflexivity.
  destruct (random_index_defined COLORS (tp 6%nat) H6 ltac:(discriminate))
    as [c Hc].
  exists c. split; [exact Hc | exact (js_index_In _ _ _ Hc)].
Qed.

(** X8: With draws in [0, 1), [new Particle(x0, y0)] aims at [(x0, y0)], is
    a fresh particle of the window (position inside it, velocity in
    [-5, 5), radius in [0.8, 2.3), a colour of the palette, never
    [undefined]), and takes exactly nine draws. *)
Theorem constructor_fresh (innerW innerH : nat) (x0 y0 : R) (tp : Tape) :
  valid_tape tp ->
  let p := fst (Particle.constructor innerW innerH x0 y0 tp) in
  Particle.targetX p = x0 /\ Particle.targetY p = y0
  /\ fresh innerW innerH p
  /\ forall k, snd (Particle.constructor innerW innerH x0 y0 tp) k
               = tp (9 + k)%nat.
Proof.
  intros Hv p.
  split; [reflexivity |]. split; [reflexivity |].
  split; [now apply constructor_is_fresh | intros k; reflexivity].
Qed.

Lemma constructor_fresh_witness :
  let p := fst (Particle.constructor 800 600 400 300 brightTape) in
  Particle.targetX p = 400 /\ Particle.targetY p = 300
  /\ fresh 800 600 p
  /\ forall k, snd (Particle.constructor 800 600 400 300 brightTape) k
               = brightTape (9 + k)%nat.
Proof.
  apply (constructor_fresh 800 600 400 300 brightTape).
  apply valid_tape_of; [repeat constructor; lra | lra].
Defined.

(** ** The creation of the field *)

Lemma createParticles_spec (innerW innerH : nat) (pts : list Point.t) :
  forall tp,
    valid_tape tp ->
    Forall2 (fun q p => aims_at q p /\ fresh innerW innerH p)
      pts (fst (createParticles innerW innerH pts tp)).
Proof.
  induction pts as [| q rest IH]; intros tp Hv; [constructor |].
  cbn [createParticles]. unfold bind at 1.
  pose proof (constructor_is_fresh innerW innerH (Point.x q) (Point.y q)
                tp Hv) as Hf.
  assert (Ht : aims_at q (fst (Particle.constructor innerW innerH
                                 (Point.x q) (Point.y q) tp)))
    by (split; reflexivity).
  pose proof (keeps_valid_constructor innerW innerH (Point.x q) (Point.y q)
                tp Hv) as Hv'.
  destruct (Particle.constructor innerW innerH (Point.x q) (Point.y q) tp)
    as [p tp1].
  cbn [fst snd] in Hf, Ht, Hv'.
  unfold bind, ret. specialize (IH tp1 Hv').
  destruct (createParticles innerW innerH rest tp1) as [ps tp2].
  cbn [fst] in *. constructor; [| exact IH].
  split; assumption.
Qed.

(** X9: On a page without particles, [handleResize] sizes the canvas to the
    window and, with draws in [0, 1), creates without throwing exactly
    [PARTICLE_COUNT] fresh particles, the particle of index [i] aiming
    at the heart point of index [i]. *)
Theorem handleResize_creates (host : Host) (app : App) (tp : Tape) :
  particles app = [] ->
  valid_tape tp ->
  let r := fst (handleResize host app tp) in
  snd r = false
  /\ canvasWidth (fst r) = innerWidth app
  /\ canvasHeight (fst r) = innerHeight app
  /\ List.length (particles (fst r)) = PARTICLE_COUNT
  /\ Forall2
       (fun q p => aims_at q p /\ fresh (innerWidth app) (innerHeight app) p)
       (fst (getHeartPoints (innerWidth app) (innerHeight app) tp))
       (particles (fst r)).
Proof.
  intros He Hv. cbv zeta. unfold handleResize.
  cbn [particles canvasWidth canvasHeight innerWidth innerHeight].
  rewrite He. unfold bind.
  pose proof (getHeartPoints_length (innerWidth app) (innerHeight app) tp)
    as Hlen.
  pose proof (keeps_valid_heartLoop PARTICLE_COUNT (innerWidth app)
                (innerHeight app) tp Hv) as Hv'.
  fold (getHeartPoints (innerWidth app) (innerHeight app)) in Hv'.
  destruct (getHeartPoints (innerWidth app) (innerHeight app) tp)
    as [pts tp1].
  cbn [fst snd] in *. unfold ret.
  pose proof (createParticles_spec (innerWidth app) (innerHeight app) pts
                tp1 Hv') as Hps.
  destruct (createParticles (innerWidth app) (innerHeight app) pts tp1)
    as [ps tp2].
  cbn [fst snd particles canvasWidth canvasHeight setParticles] in *.
  repeat split; try reflexivity.
  - rewrite <- Hlen. symmetry. eapply Forall2_length. exact Hps.
  - exact Hps.
Qed.

Lemma handleResize_creates_witness :
  let app := initialApp 800 600 in
  let r := fst (handleResize blankHost app (const_tape (1 / 2))) in
  snd r = false
  /\ canvasWidth (fst r) = innerWidth app
  /\ canvasHeight (fst r) = innerHeight app
  /\ List.length (particles (fst r)) = PARTICLE_COUNT
  /\ Forall2
       (fun q p => aims_at q p /\ fresh (innerWidth app) (innerHeight app) p)
       (fst (getHeartPoints (innerWidth app) (innerHeight app)
               (const_tape (1 / 2))))
       (particles (fst r)).
Proof.
  apply (handleResize_creates blankHost (initialApp 800 600)
           (const_tape (1 / 2))).
  - reflexivity.
  - apply valid_const_tape. lra.
Defined.

(** ** The assignment of the targets *)

Lemma nth_error_None_after {A : Type} (l : list A) (i j : nat) :
  nth_error l i = None -> (i <= j)%nat -> nth_error l j = None.
Proof. intros H Hle. apply nth_error_None in H. apply nth_error_None. lia. Qed.

Lemma forEachTarget_spec (pts : list Point.t) (ps : list Particle.t) :
  forall i0,
    (i0 <= List.length pts)%nat ->
    List.length (fst (forEachTarget i0 pts ps)) = List.length ps
    /\ (snd (forEachTarget i0 pts ps) = true
        <-> (List.length pts < i0 + List.length ps)%nat)
    /\ forall i p,
         nth_error ps i = Some p ->
         nth_error (fst (forEachTarget i0 pts ps)) i
         = Some (match nth_error pts (i0 + i) with
                 | Some q => setTarget p q
                 | None => p
                 end).
Proof.
  induction ps as [| p rest IH]; intros i0 Hi0.
  - simpl. split; [reflexivity |]. split; [| intros [| i] p' H; discriminate].
    split; [discriminate | lia].
  - cbn [forEachTarget]. destruct (nth_error pts i0) as [q |] eqn:Eq.
    + assert (Hlt : (i0 < List.length pts)%nat)
        by (apply nth_error_Some; rewrite Eq; discriminate).
      destruct (IH (S i0) Hlt) as [Hlen [Hthrew Hnth]].
      destruct (forEachTarget (S i0) pts rest) as [rest' threw].
      cbn [fst snd List.length] in *.
      split; [now rewrite Hlen |]. split.
      * rewrite Hthrew. lia.
      * intros [| i] p' Hp'; simpl in Hp'.
        -- inversion Hp'; subst p'. rewrite Nat.add_0_r, Eq. reflexivity.
        -- simpl. rewrite (Hnth i p' Hp').
           replace (i0 + S i)%nat with (S i0 + i)%nat by lia. reflexivity.
    + cbn [fst snd List.length]. split; [reflexivity |]. split.
      * apply nth_error_None in Eq. split; [lia | reflexivity].
      * intros i p' Hp'.
        rewrite (nth_error_None_after pts i0 (i0 + i) Eq ltac:(lia)).
        exact Hp'.
Qed.

(** X10: [forEach] pairs targets and particles by position.  The loop throws
    exactly when there are fewer points than particles; the particles
    that have a point of their index aim at it afterwards, the others
    are as they were, and no particle is added or lost. *)
Theorem forEachTarget_alignment (pts : list Point.t) (ps : list Particle.t) :
  List.length (fst (forEachTarget 0 pts ps)) = List.length ps
  /\ (snd (forEachTarget 0 pts ps) = true
      <-> (List.length pts < List.length ps)%nat)
  /\ forall i p,
       nth_error ps i = Some p ->
       nth_error (fst (forEachTarget 0 pts ps)) i
       = Some (match nth_error pts i with
               | Some q => setTarget p q
               | None => p
               end).
Proof. apply (forEachTarget_spec pts ps 0). lia. Qed.

Lemma newPoints_returns (host : Host) (ctx : Raster) (text : string)
  (width height : nat) (tp : Tape) :
  getContext2d host = Some ctx ->
  (1 <= width)%nat -> (1 <= height)%nat -> valid_tape tp ->
  exists l, fst (newPoints host text width height tp) = Returned l
            /\ List.length l = PARTICLE_COUNT.
Proof.
  intros Hctx Hw Hh Hv. unfold newPoints. rewrite trim_empty_iff.
  destruct (allSpace text).
  - unfold bind, ret.
    pose proof (getHeartPoints_length width height tp) as HL.
    destruct (getHeartPoints width height tp) as [pts tp'].
    exists pts. split; [reflexivity | exact HL].
  - unfold getTextPoints. rewrite Hctx, (has_size width height Hw Hh).
    cbv zeta.
    destruct (sampledPoints (textScan host ctx text width height))
      as [| c cs] eqn:Es.
    + unfold bind, ret.
      pose proof (getHeartPoints_length width height tp) as HL.
      destruct (getHeartPoints width height tp) as [pts tp'].
      exists pts. split; [reflexivity | exact HL].
    + apply textLoop_length; [exact Hv | discriminate].
Qed.

(** X11: With a 2D context, a canvas of at least 1x1 pixels, draws in
    [0, 1) and at most [PARTICLE_COUNT] particles, [updateTargets] does
    not throw and makes the particle of every index aim at the sampled
    point of the same index. *)
Theorem updateTargets_aligns (host : Host) (ctx : Raster) (app : App)
  (tp : Tape) :
  getContext2d host = Some ctx ->
  (1 <= canvasWidth app)%nat -> (1 <= canvasHeight app)%nat ->
  valid_tape tp ->
  (List.length (particles app) <= PARTICLE_COUNT)%nat ->
  exists l,
    fst (newPoints host (text app) (canvasWidth app) (canvasHeight app) tp)
    = Returned l
    /\ snd (fst (updateTargets host app tp)) = false
    /\ forall i p,
         nth_error (particles app) i = Some p ->
         exists q,
           nth_error l i = Some q
           /\ nth_error (particles (fst (fst (updateTargets host app tp)))) i
              = Some (setTarget p q).
Proof.
  intros Hctx Hw Hh Hv Hn.
  destruct (newPoints_returns host ctx (text app) (canvasWidth app)
              (canvasHeight app) tp Hctx Hw Hh Hv) as [l [Hl Hlen]].
  exists l. split; [exact Hl |].
  unfold updateTargets, bind.
  destruct (newPoints host (text app) (canvasWidth app) (canvasHeight app) tp)
    as [pts tp1].
  cbn [fst] in Hl. subst pts.
  destruct (forEachTarget_spec l (particles app) 0 ltac:(lia))
    as [_ [Hthrew Hnth]].
  destruct (forEachTarget 0 l (particles app)) as [ps threw].
  cbn [fst snd ret particles setParticles] in *.
  split.
  - destruct threw; [| reflexivity].
    destruct Hthrew as [Hthrew _]. specialize (Hthrew eq_refl). lia.
  - intros i p Hp. specialize (Hnth i p Hp). cbn [Nat.add] in Hnth.
    destruct (nth_error l i) as [q |] eqn:Eq.
    + exists q. split; [reflexivity | exact Hnth].
    + apply nth_error_None in Eq.
      assert (i < List.length (particles app))%nat
        by (apply nth_error_Some; rewrite Hp; discriminate).
      lia.
Qed.

Lemma updateTargets_aligns_witness :
  let app := {| text := "L"; innerWidth := 20; innerHeight := 20;
                canvasWidth := 20; canvasHeight := 20;
                particles := [restingParticle; largeRestingParticle] |} in
  exists l,
    fst (newPoints ellHost (text app) (canvasWidth app) (canvasHeight app)
           (const_tape 0))
    = Returned l
    /\ snd (fst (updateTargets ellHost app (const_tape 0))) = false
    /\ forall i p,
         nth_error (particles app) i = Some p ->
         exists q,
           nth_error l i = Some q
           /\ nth_error
                (particles (fst (fst (updateTargets ellHost app
                                        (const_tape 0))))) i
              = Some (setTarget p q).
Proof.
  intros app.
  apply (updateTargets_aligns ellHost ellRaster app (const_tape 0)).
  - reflexivity.
  - simpl. lia.
  - simpl. lia.
  - apply valid_const_tape. lra.
  - unfold PARTICLE_COUNT. simpl. lia.
Defined.

Lemma updateTargets_without_context_eq (host : Host) (app : App) (tp : Tape) :
  getContext2d host = None ->
  allSpace (text app) = false ->
  particles app <> [] ->
  updateTargets host app tp = (app, true, tp).
Proof.
  intros Hctx Htext Hne. unfold updateTargets, bind.
  unfold newPoints. rewrite trim_empty_iff, Htext.
  unfold getTextPoints. rewrite Hctx.
  unfold ret. destruct app as [t iw ih cw ch ps]. cbn [particles] in *.
  destruct ps as [| p rest]; [congruence |]. reflexivity.
Qed.

(** X12: Without a 2D context and with a text that is not blank,
    [updateTargets] on a page that has particles throws, takes no draw
    and leaves every particle as it was (the old targets stay); with
    such a text but no particle it returns without throwing. *)
Theorem updateTargets_without_context (host : Host) (app : App) (tp : Tape) :
  getContext2d host = None ->
  allSpace (text app) = false ->
  (particles app <> [] -> updateTargets host app tp = (app, true, tp))
  /\ (particles app = []
      -> snd (fst (updateTargets host app tp)) = false).
Proof.
  intros Hctx Htext. split.
  - now apply updateTargets_without_context_eq.
  - intros He. unfold updateTargets, bind, newPoints.
    rewrite trim_empty_iff, Htext. unfold getTextPoints. rewrite Hctx.
    unfold ret. rewrite He. reflexivity.
Qed.

Lemma updateTargets_without_context_witness :
  let app := {| text := "L"; innerWidth := 20; innerHeight := 20;
                canvasWidth := 20; canvasHeight := 20;
                particles := [restingParticle] |} in
  (particles app <> []
   -> updateTargets hostWithoutContext app (const_tape 0)
      = (app, true, const_tape 0))
  /\ (particles app = []
      -> snd (fst (updateTargets hostWithoutContext app (const_tape 0)))
         = false).
Proof.
  intros app.
  apply (updateTargets_without_context hostWithoutContext app (const_tape 0)).
  - reflexivity.
  - reflexivity.
Defined.

(** ** What an update leaves alone *)

(** X13: Over any run of updates a particle keeps its target, its size, its
    colour, its friction and its ease: only the retargeting moves the
    target, and the look of a particle is fixed at construction. *)
Theorem run_keeps_identity (mice : list (R * R)) (p : Particle.t) :
  Particle.targetX (Particle.run p mice) = Particle.targetX p
  /\ Particle.targetY (Particle.run p mice) = Particle.targetY p
  /\ same_identity p (Particle.run p mice).
Proof.
  revert p. induction mice as [| [mx my] rest IH]; intros p.
  - unfold same_identity. simpl. tauto.
  - cbn [Particle.run].
    destruct (IH (Particle.update p mx my)) as [Hx [Hy Hs]].
    unfold same_identity in *. rewrite Hx, Hy.
    decompose [and] Hs. repeat split; try reflexivity;
      match goal with H : _ = ?r |- _ = ?r => rewrite <- H; reflexivity end.
Qed.

(** ** The mouse away *)

(** X14: With the mouse at the sentinel (-1000, -1000) of [onMouseLeave], a
    particle whose abscissa or ordinate is at least -900 (so every
    particle on the screen) gets no impulse: the update is the spring,
    the friction and the integration alone. *)
Theorem sentinel_gives_no_impulse (p : Particle.t) :
  -900 <= Particle.x p \/ -900 <= Particle.y p ->
  let q := Particle.update p (-1000) (-1000) in
  Particle.vx q
  = (Particle.vx p + (Particle.targetX p - Particle.x p) * Particle.ease p)
    * Particle.friction p
  /\ Particle.vy q
     = (Particle.vy p + (Particle.targetY p - Particle.y p) * Particle.ease p)
       * Particle.friction p
  /\ Particle.x q = Particle.x p + Particle.vx q
  /\ Particle.y q = Particle.y p + Particle.vy q.
Proof.
  intros Hpos q.
  assert (Hout : MOUSE_RADIUS * MOUSE_RADIUS
                 <= (Particle.x p - -1000) * (Particle.x p - -1000)
                    + (Particle.y p - -1000) * (Particle.y p - -1000)).
  { unfold MOUSE_RADIUS.
    pose proof (Rle_0_sqr (Particle.x p - -1000)) as Hx.
    pose proof (Rle_0_sqr (Particle.y p - -1000)) as Hy.
    unfold Rsqr in *. destruct Hpos; nra. }
  destruct (update_free p (-1000) (-1000) Hout) as [H1 [H2 [H3 [H4 _]]]].
  repeat split; assumption.
Qed.

Lemma sentinel_gives_no_impulse_witness :
  let q := Particle.update farParticle (-1000) (-1000) in
  Particle.vx q
  = (Particle.vx farParticle
     + (Particle.targetX farParticle - Particle.x farParticle)
       * Particle.ease farParticle)
    * Particle.friction farParticle
  /\ Particle.vy q
     = (Particle.vy farParticle
        + (Particle.targetY farParticle - Particle.y farParticle)
          * Particle.ease farParticle)
       * Particle.friction farParticle
  /\ Particle.x q = Particle.x farParticle + Particle.vx q
  /\ Particle.y q = Particle.y farParticle + Particle.vy q.
Proof.
  apply (sentinel_gives_no_impulse farParticle).
  left. simpl. lra.
Defined.

(** ** Rest and convergence *)

(** X16: A particle at rest on its target stays there as long as the mouse
    is not within the radius. *)
Theorem rest_at_target (mice : list (R * R)) (p : Particle.t) :
  Particle.x p = Particle.targetX p -> Particle.y p = Particle.targetY p ->
  Particle.vx p = 0 -> Particle.vy p = 0 ->
  mouse_clear p mice ->
  let q := Particle.run p mice in
  Particle.x q = Particle.x p /\ Particle.y q = Particle.y p
  /\ Particle.vx q = 0 /\ Particle.vy q = 0.
Proof.
  revert p. induction mice as [| [mx my] rest IH]; intros p Hx Hy Hvx Hvy Hc.
  - simpl. tauto.
  - destruct Hc as [Hout Hrest].
    destruct (update_free p mx my Hout)
      as [Hvx' [Hvy' [Hx' [Hy' [Htx [Hty _]]]]]].
    rewrite Hvx, Hx in Hvx'. rewrite Hvy, Hy in Hvy'.
    assert (Zx : Particle.vx (Particle.update p mx my) = 0) by (rewrite Hvx'; ring).
    assert (Zy : Particle.vy (Particle.update p mx my) = 0) by (rewrite Hvy'; ring).
    rewrite Zx in Hx'. rewrite Zy in Hy'.
    cbn [Particle.run].
    assert (Hx1 : Particle.x (Particle.update p mx my)
                  = Particle.targetX (Particle.update p mx my)) by lra.
    assert (Hy1 : Particle.y (Particle.update p mx my)
                  = Particle.targetY (Particle.update p mx my)) by lra.
    destruct (IH (Particle.update p mx my) Hx1 Hy1 Zx Zy Hrest)
      as [Qx [Qy [Qvx Qvy]]].
    split; [lra |]. split; [lra |]. split; assumption.
Qed.

Lemma rest_at_target_witness :
  let q := Particle.run restingParticle [noMouse] in
  Particle.x q = Particle.x restingParticle
  /\ Particle.y q = Particle.y restingParticle
  /\ Particle.vx q = 0 /\ Particle.vy q = 0.
Proof.
  apply (rest_at_target [noMouse] restingParticle); try reflexivity.
  simpl. split; [unfold MOUSE_RADIUS; lra | exact I].
Defined.

(** X17: With a fixed target, the friction 0.9, an ease in [0.05, 0.1] and
    the mouse out of reach, the particle converges to its target and
    comes to rest: for every tolerance there is a number of ticks after
    which both the distance to the target and the speed are below it. *)
Theorem spring_converges (p : Particle.t) (eps : R) :
  Particle.friction p = 0.9 ->
  0.05 <= Particle.ease p <= 0.1 ->
  0 < eps ->
  exists N : nat,
    forall mice,
      (N <= List.length mice)%nat ->
      mouse_clear p mice ->
      distToTarget (Particle.run p mice) < eps
      /\ speed (Particle.run p mice) < eps.
Proof.
  intros Hf He Heps.
  destruct (energy_bounds p Hf He) as [Hs0 _].
  assert (HE0 : 0 <= energy p).
  { pose proof (Rle_0_sqr (Particle.vx p)). pose proof (Rle_0_sqr (Particle.vy p)).
    unfold speedSq, Rsqr in *. lra. }
  set (y := eps * eps / (25 * (energy p + 1))).
  assert (Hy : 0 < y).
  { unfold y. apply Rdiv_lt_0_compat; nra. }
  destruct (pow_lt_1_zero 0.9 ltac:(rewrite Rabs_right; lra) y Hy) as [N HN].
  exists N. intros mice Hlen Hclear.
  destruct (energy_run mice p Hclear) as [HE [Hfq Heq]].
  rewrite Hf in HE, Hfq. rewrite <- Heq in He.
  destruct (energy_bounds _ Hfq He) as [Hs Hd].
  specialize (HN (List.length mice) Hlen).
  pose proof (friction_pow_range (List.length mice)) as Hpow.
  rewrite Rabs_right in HN by lra.
  assert (Hsmall : 25 * energy (Particle.run p mice) < eps * eps).
  { rewrite HE.
    assert (0.9 ^ List.length mice * (25 * (energy p + 1)) < eps * eps).
    { unfold y in HN.
      apply (Rmult_lt_compat_r (25 * (energy p + 1))) in HN; [| lra].
      replace (eps * eps / (25 * (energy p + 1)) * (25 * (energy p + 1)))
        with (eps * eps) in HN by (field; lra).
      exact HN. }
    nra. }
  assert (Hd0 : 0 <= distSqToTarget (Particle.run p mice)).
  { unfold distSqToTarget.
    pose proof (Rle_0_sqr (Particle.x (Particle.run p mice)
                           - Particle.targetX (Particle.run p mice))).
    pose proof (Rle_0_sqr (Particle.y (Particle.run p mice)
                           - Particle.targetY (Particle.run p mice))).
    unfold Rsqr in *. lra. }
  assert (Hs1 : 0 <= speedSq (Particle.run p mice)).
  { unfold speedSq.
    pose proof (Rle_0_sqr (Particle.vx (Particle.run p mice))).
    pose proof (Rle_0_sqr (Particle.vy (Particle.run p mice))).
    unfold Rsqr in *. lra. }
  assert (Heps2 : sqrt (eps * eps) = eps) by (apply sqrt_square; lra).
  unfold distToTarget, speed.
  split; apply Rlt_le_trans with (sqrt (eps * eps)); try lra;
    apply sqrt_lt_1_alt; lra.
Qed.

Lemma spring_converges_witness :
  exists N : nat,
    forall mice,
      (N <= List.length mice)%nat ->
      mouse_clear farParticle mice ->
      distToTarget (Particle.run farParticle mice) < 1
      /\ speed (Particle.run farParticle mice) < 1.
Proof.
  apply (spring_converges farParticle 1).
  - reflexivity.
  - simpl. lra.
  - lra.
Defined.

(** ** The two fates of the twinkle *)

Lemma alternates_update (o s : R) (p : Particle.t) (mouseX mouseY : R) :
  0 < s -> o + s < 0.4 ->
  alternates o s p -> alternates o s (Particle.update p mouseX mouseY).
Proof.
  intros Hs Hlow. unfold alternates, Particle.update.
  cbn [Particle.opacity Particle.twinkleSpeed].
  intros [[Ho Ht] | [Ho Ht]]; rewrite Ho, Ht; unfold Rgtb.
  - right. rewrite (Rltb_false 1), (Rltb_true _ 0.4) by lra. simpl.
    split; lra.
  - left. rewrite (Rltb_false 1), (Rltb_true _ 0.4) by lra. simpl.
    split; lra.
Qed.

Lemma alternates_run (o s : R) (mice : list (R * R)) :
  0 < s -> o + s < 0.4 ->
  forall p, alternates o s p -> alternates o s (Particle.run p mice).
Proof.
  intros Hs Hlow.
  induction mice as [| [mx my] rest IH]; intros p Hp; [exact Hp |].
  cbn [Particle.run]. apply IH. now apply alternates_update.
Qed.

(** X18: The opacity of a new particle has one of two fates, decided by its
    two draws.  If the first update brings it to 0.4 or more, it stays in
    [0.37, 1.03] for ever.  Otherwise every update reflects it: it takes
    its initial value and that value plus the twinkle speed in turn, and
    stays below 0.4 for ever. *)
Theorem twinkle_dichotomy (innerW innerH : nat) (x0 y0 : R) (tp : Tape)
  (mice : list (R * R)) :
  valid_tape tp ->
  let p := fst (Particle.constructor innerW innerH x0 y0 tp) in
  let o := Particle.opacity p in
  let s := Particle.twinkleSpeed p in
  let q := Particle.run p mice in
  (0.4 <= o + s -> 0.37 <= Particle.opacity q <= 1.03)
  /\ (o + s < 0.4 ->
      (Particle.opacity q = o \/ Particle.opacity q = o + s)
      /\ Particle.opacity q < 0.4).
Proof.
  intros Hv p o s q.
  assert (Ho : 0 <= o < 1) by apply (Hv 7%nat).
  assert (Hs : 0.01 <= s < 0.03).
  { pose proof (Hv 8%nat) as H8.
    assert (Es : s = 0.01 + tp 8%nat * 0.02) by reflexivity. lra. }
  split.
  - intros Hband. apply twinkle_in_band_run.
    unfold twinkle_in_band. fold o s. cbv zeta.
    rewrite Rabs_right by lra. repeat split; lra.
  - intros Hlow.
    assert (Ha : alternates o s q).
    { apply alternates_run; [lra | exact Hlow |]. left. split; reflexivity. }
    destruct Ha as [[Eo _] | [Eo _]]; rewrite Eo; split; auto; lra.
Qed.

Lemma twinkle_dichotomy_witness :
  let p := fst (Particle.constructor 800 600 400 300 dimTape) in
  let o := Particle.opacity p in
  let s := Particle.twinkleSpeed p in
  let q := Particle.run p [noMouse; noMouse; noMouse] in
  (0.4 <= o + s -> 0.37 <= Particle.opacity q <= 1.03)
  /\ (o + s < 0.4 ->
      (Particle.opacity q = o \/ Particle.opacity q = o + s)
      /\ Particle.opacity q < 0.4).
Proof.
  apply (twinkle_dichotomy 800 600 400 300 dimTape
           [noMouse; noMouse; noMouse]).
  apply valid_tape_of; [repeat constructor; lra | lra].
Defined.

(** ** The animation frame *)

Lemma animateParticles_spec (ps : list Particle.t) (mouseX mouseY : R) :
  fst (animateParticles ps mouseX mouseY)
  = map (fun p => Particle.update p mouseX mouseY) ps
  /\ snd (animateParticles ps mouseX mouseY)
     = flat_map draw (fst (animateParticles ps mouseX mouseY)).
Proof.
  induction ps as [| p rest [IH1 IH2]]; [split; reflexivity |].
  cbn [animateParticles].
  destruct (animateParticles rest mouseX mouseY) as [rest' ops].
  cbn [fst snd] in *. subst rest'. split; [reflexivity |].
  cbn [map flat_map]. now rewrite IH2.
Qed.

(** X19: One frame updates every particle once with the mouse of that frame
    and keeps their order and number; it first fills the whole canvas
    with the fade colour at full alpha, then draws every particle in the
    order of the indices, each as it is after its update; it leaves the
    text and the canvas size alone. *)
Theorem animate_frame (app : App) (m : R * R) :
  particles (fst (animate app m))
  = map (fun p => Particle.update p (fst m) (snd m)) (particles app)
  /\ snd (animate app m)
     = [SetGlobalAlpha 1;
        SetFillStyle (Some "rgba(0, 0, 0, 0.2)"%string);
        FillRect 0 0 (INR (canvasWidth app)) (INR (canvasHeight app))]
       ++ flat_map draw (particles (fst (animate app m)))
  /\ List.length (snd (animate app m))
     = (3 + 5 * List.length (particles app))%nat
  /\ text (fst (animate app m)) = text app
  /\ canvasWidth (fst (animate app m)) = canvasWidth app
  /\ canvasHeight (fst (animate app m)) = canvasHeight app.
Proof.
  unfold animate.
  destruct (animateParticles_spec (particles app) (fst m) (snd m))
    as [H1 H2].
  destruct (animateParticles (particles app) (fst m) (snd m)) as [ps ops].
  cbn [fst snd particles setParticles text canvasWidth canvasHeight] in *.
  subst ps ops. repeat split; try reflexivity.
  rewrite length_app.
  assert (Hd : List.length
                 (flat_map draw
                    (map (fun p => Particle.update p (fst m) (snd m))
                       (particles app)))
               = (5 * List.length (particles app))%nat).
  { induction (particles app) as [| p rest IH]; [reflexivity |].
    cbn [map flat_map]. rewrite length_app, IH. cbn [draw List.length]. lia. }
  rewrite Hd. reflexivity.
Qed.

(** ** The page over a whole session *)

Lemma same_identity_refl (p : Particle.t) : same_identity p p.
Proof. unfold same_identity. tauto. Qed.

Lemma same_identity_trans (p q r : Particle.t) :
  same_identity p q -> same_identity q r -> same_identity p r.
Proof.
  unfold same_identity. intros Hpq Hqr.
  decompose [and] Hpq. decompose [and] Hqr. repeat split; congruence.
Qed.

Lemma identity_trans (ps qs rs : list Particle.t) :
  Forall2 same_identity ps qs -> Forall2 same_identity qs rs ->
  Forall2 same_identity ps rs.
Proof.
  intros H. revert rs.
  induction H as [| p q ps qs Hpq _ IH]; intros rs Hr.
  - inversion Hr. constructor.
  - inversion Hr as [| q' r qs' rs' Hqr Hrest]; subst.
    constructor; [eapply same_identity_trans; eassumption | now apply IH].
Qed.

Lemma identity_refl (ps : list Particle.t) : Forall2 same_identity ps ps.
Proof. induction ps; constructor; [apply same_identity_refl | assumption]. Qed.

Lemma frame_identity (ps qs : list Particle.t) :
  Forall2 same_but_target ps qs -> Forall2 same_identity ps qs.
Proof.
  induction 1 as [| p q ps qs Hpq _ IH]; constructor; [| exact IH].
  unfold same_but_target in Hpq. unfold same_identity. tauto.
Qed.

Lemma animate_identity (app : App) (m : R * R) :
  Forall2 same_identity (particles app) (particles (fst (animate app m))).
Proof.
  unfold animate.
  destruct (animateParticles_spec (particles app) (fst m) (snd m)) as [H1 _].
  destruct (animateParticles (particles app) (fst m) (snd m)) as [ps ops].
  cbn [fst particles setParticles] in *. subst ps.
  induction (particles app) as [| p rest IH]; constructor; [| exact IH].
  unfold same_identity. simpl. tauto.
Qed.


Lemma dispatch_identity (host : Host) (inp : Input) (pg : Page) (tp : Tape) :
  field pg <> [] ->
  Forall2 same_identity (field pg)
    (field (fst (fst (fst (dispatch host inp pg tp))))).
Proof.
  intros Hne. unfold field in *.
  destruct inp as [[w h | s] | cx cy | |]; cbn [dispatch].
  - unfold bind.
    pose proof (handle_frame host (Resize w h) (state pg) tp Hne) as H.
    destruct (handle host (Resize w h) (state pg) tp) as [[a threw] tp1].
    cbn [fst snd ret state] in *. now apply frame_identity.
  - unfold bind.
    pose proof (handle_frame host (SetText s) (state pg) tp Hne) as H.
    destruct (handle host (SetText s) (state pg) tp) as [[a threw] tp1].
    cbn [fst snd] in *. apply frame_identity in H.
    destruct threw; [exact H |].
    pose proof (animate_identity a (mouse pg)) as H2.
    destruct (animate a (mouse pg)) as [a' ops].
    cbn [fst ret state] in *. eapply identity_trans; eassumption.
  - apply identity_refl.
  - apply identity_refl.
  - pose proof (animate_identity (state pg) (mouse pg)) as H2.
    destruct (animate (state pg) (mouse pg)) as [a' ops]. exact H2.
Qed.


Lemma looks_fresh_identity (ps qs : list Particle.t) :
  Forall2 same_identity ps qs -> Forall looks_fresh ps -> Forall looks_fresh qs.
Proof.
  induction 1 as [| p q ps qs Hpq _ IH]; intros Hf; [constructor |].
  inversion Hf as [| p' ps' Hp Hps]; subst. constructor; [| now apply IH].
  unfold same_identity in Hpq. unfold looks_fresh in *.
  destruct Hpq as [E1 [E2 [E3 [E4 E5]]]].
  rewrite <- E1, <- E2, <- E3, <- E4, <- E5. exact Hp.
Qed.

Lemma fresh_looks_fresh (innerW innerH : nat) (p : Particle.t) :
  fresh innerW innerH p -> looks_fresh p.
Proof. unfold fresh, looks_fresh. tauto. Qed.

Lemma handleResize_initial (host : Host) (app : App) (tp : Tape) :
  particles app = [] ->
  valid_tape tp ->
  snd (fst (handleResize host app tp)) = false
  /\ List.length (particles (fst (fst (handleResize host app tp))))
     = PARTICLE_COUNT
  /\ Forall looks_fresh (particles (fst (fst (handleResize host app tp)))).
Proof.
  intros He Hv. unfold handleResize. cbn [particles innerWidth innerHeight
                                           canvasWidth canvasHeight].
  rewrite He. unfold bind.
  pose proof (getHeartPoints_length (innerWidth app) (innerHeight app) tp)
    as Hlen.
  pose proof (keeps_valid_heartLoop PARTICLE_COUNT (innerWidth app)
                (innerHeight app) tp Hv) as Hv'.
  fold (getHeartPoints (innerWidth app) (innerHeight app)) in Hv'.
  destruct (getHeartPoints (innerWidth app) (innerHeight app) tp)
    as [pts tp1].
  cbn [fst snd] in *. unfold ret.
  pose proof (createParticles_spec (innerWidth app) (innerHeight app) pts
                tp1 Hv') as Hps.
  destruct (createParticles (innerWidth app) (innerHeight app) pts tp1)
    as [ps tp2].
  cbn [fst snd particles setParticles] in *.
  split; [reflexivity |]. split.
  - rewrite <- Hlen. symmetry. eapply Forall2_length. exact Hps.
  - clear Hlen. induction Hps as [| q p pts ps [_ Hp] _ IH]; constructor.
    + eapply fresh_looks_fresh. exact Hp.
    + exact IH.
Qed.

Lemma mount_field (host : Host) (width height : nat) (tp : Tape) :
  valid_tape tp ->
  snd (fst (fst (mount host width height tp))) = false
  /\ List.length (field (fst (fst (fst (mount host width height tp)))))
     = PARTICLE_COUNT
  /\ Forall looks_fresh (field (fst (fst (fst (mount host width height tp))))).
Proof.
  intros Hv. unfold mount, bind, field.
  destruct (handleResize_initial host (initialApp width height) tp
              eq_refl Hv) as [Hq [Hlen Hf]].
  destruct (handleResize host (initialApp width height) tp)
    as [[a threw] tp1].
  cbn [fst snd] in *. subst threw.
  pose proof (animate_identity a (-1000, -1000)) as Hid.
  destruct (animate a (-1000, -1000)) as [a' ops].
  cbn [fst snd ret state] in *.
  split; [reflexivity |]. split.
  - rewrite <- Hlen. symmetry. eapply Forall2_length. exact Hid.
  - eapply looks_fresh_identity; eassumption.
Qed.

Lemma PARTICLE_COUNT_nonempty (ps : list Particle.t) :
  List.length ps = PARTICLE_COUNT -> ps <> [].
Proof. intros H E. subst ps. unfold PARTICLE_COUNT in H. discriminate H. Qed.



Lemma handleResize_nonempty (host : Host) (app : App) (tp : Tape) :
  particles app <> [] ->
  handleResize host app tp
  = updateTargets host
      {| text := text app;
         innerWidth := innerWidth app; innerHeight := innerHeight app;
         canvasWidth := innerWidth app; canvasHeight := innerHeight app;
         particles := particles app |} tp.
Proof.
  intros Hne. unfold handleResize. cbn [particles].
  destruct (particles app); [congruence | reflexivity].
Qed.

Lemma updateTargets_quiet (host : Host) (ctx : Raster) (app : App)
  (tp : Tape) :
  getContext2d host = Some ctx -> valid_tape tp ->
  (1 <= canvasWidth app)%nat -> (1 <= canvasHeight app)%nat ->
  (List.length (particles app) <= PARTICLE_COUNT)%nat ->
  snd (fst (updateTargets host app tp)) = false.
Proof.
  intros Hctx Hv Hw Hh Hn.
  destruct (newPoints_returns host ctx (text app) (canvasWidth app)
              (canvasHeight app) tp Hctx Hw Hh Hv) as [l [Hl Hlen]].
  unfold updateTargets, bind.
  destruct (newPoints host (text app) (canvasWidth app) (canvasHeight app) tp)
    as [pts tp1].
  cbn [fst] in Hl. subst pts.
  destruct (forEachTarget_spec l (particles app) 0 ltac:(lia))
    as [_ [Hthrew _]].
  destruct (forEachTarget 0 l (particles app)) as [ps threw].
  cbn [fst snd ret] in *.
  destruct threw; [| reflexivity].
  destruct Hthrew as [Hthrew _]. specialize (Hthrew eq_refl). lia.
Qed.

Lemma handleResize_quiet (host : Host) (ctx : Raster) (app : App)
  (tp : Tape) :
  getContext2d host = Some ctx -> valid_tape tp ->
  has_window app ->
  List.length (particles app) = PARTICLE_COUNT ->
  snd (fst (handleResize host app tp)) = false.
Proof.
  intros Hctx Hv [Hw Hh] Hlen.
  rewrite handleResize_nonempty by exact (PARTICLE_COUNT_nonempty _ Hlen).
  apply (updateTargets_quiet host ctx); try assumption.
  cbn [particles]. rewrite Hlen. apply Nat.le_refl.
Qed.

Lemma handleResize_window (host : Host) (app : App) (tp : Tape) :
  innerWidth (fst (fst (handleResize host app tp))) = innerWidth app
  /\ innerHeight (fst (fst (handleResize host app tp))) = innerHeight app.
Proof.
  unfold handleResize. cbn [particles innerWidth innerHeight canvasWidth
                             canvasHeight].
  destruct (particles app) as [| p ps].
  - unfold bind, ret.
    destruct (getHeartPoints (innerWidth app) (innerHeight app) tp)
      as [pts tp1].
    destruct (createParticles (innerWidth app) (innerHeight app) pts tp1)
      as [qs tp2].
    split; reflexivity.
  - unfold updateTargets, bind.
    destruct (newPoints _ _ _ _ tp) as [[l |] tp1].
    + destruct (forEachTarget 0 l _) as [qs threw]. split; reflexivity.
    + split; reflexivity.
Qed.

Lemma animate_window (a : App) (m : R * R) :
  innerWidth (fst (animate a m)) = innerWidth a
  /\ innerHeight (fst (animate a m)) = innerHeight a.
Proof.
  unfold animate.
  destruct (animateParticles (particles a) (fst m) (snd m)).
  split; reflexivity.
Qed.

Lemma handle_quiet (host : Host) (ctx : Raster) (ev : Event) (app : App)
  (tp : Tape) :
  getContext2d host = Some ctx -> valid_tape tp ->
  has_window app -> sized_event ev ->
  List.length (particles app) = PARTICLE_COUNT ->
  snd (fst (handle host ev app tp)) = false
  /\ has_window (fst (fst (handle host ev app tp))).
Proof.
  intros Hctx Hv [Hw Hh] Hev Hlen.
  destruct ev as [w h | s]; unfold handle; cbn [sized_event] in Hev.
  - split.
    + apply (handleResize_quiet host ctx); try assumption.
    + unfold has_window.
      match goal with
      | |- context [handleResize host ?a tp] =>
          destruct (handleResize_window host a tp) as [E1 E2]
      end.
      rewrite E1, E2. cbn [innerWidth innerHeight]. exact Hev.
  - split.
    + apply (handleResize_quiet host ctx); try assumption.
      split; assumption.
    + unfold has_window.
      match goal with
      | |- context [handleResize host ?a tp] =>
          destruct (handleResize_window host a tp) as [E1 E2]
      end.
      rewrite E1, E2. cbn [innerWidth innerHeight]. split; assumption.
Qed.

Lemma keeps_valid_dispatch (host : Host) (inp : Input) (pg : Page) :
  keeps_valid (dispatch host inp pg).
Proof.
  destruct inp as [[w h | s] | cx cy | |]; cbn [dispatch].
  - apply keeps_valid_bind; [apply keeps_valid_handle | intros r].
    apply keeps_valid_ret.
  - apply keeps_valid_bind; [apply keeps_valid_handle | intros r].
    destruct (snd r); [apply keeps_valid_ret |].
    destruct (animate (fst r) (mouse pg)). apply keeps_valid_ret.
  - apply keeps_valid_ret.
  - apply keeps_valid_ret.
  - destruct (animate (state pg) (mouse pg)). apply keeps_valid_ret.
Qed.

Lemma keeps_valid_mount (host : Host) (width height : nat) :
  keeps_valid (mount host width height).
Proof.
  unfold mount.
  apply keeps_valid_bind; [apply keeps_valid_handleResize | intros r].
  destruct (snd r); [apply keeps_valid_ret |].
  destruct (animate (fst r) (-1000, -1000)). apply keeps_valid_ret.
Qed.

Lemma dispatch_quiet (host : Host) (ctx : Raster) (inp : Input) (pg : Page)
  (tp : Tape) :
  getContext2d host = Some ctx -> valid_tape tp ->
  has_window (state pg) -> sized_input inp ->
  List.length (field pg) = PARTICLE_COUNT ->
  snd (fst (fst (dispatch host inp pg tp))) = false
  /\ has_window (state (fst (fst (fst (dispatch host inp pg tp))))).
Proof.
  intros Hctx Hv Hwin Hinp Hlen. unfold field in Hlen.
  destruct inp as [[w h | s] | cx cy | |]; cbn [dispatch sized_input] in *.
  - unfold bind.
    pose proof (handle_quiet host ctx (Resize w h) (state pg) tp Hctx Hv
                  Hwin Hinp Hlen) as [Hq Hw'].
    destruct (handle host (Resize w h) (state pg) tp) as [[a threw] tp1].
    split; assumption.
  - unfold bind.
    pose proof (handle_quiet host ctx (SetText s) (state pg) tp Hctx Hv
                  Hwin Hinp Hlen) as [Hq Hw'].
    destruct (handle host (SetText s) (state pg) tp) as [[a threw] tp1].
    cbn [fst snd] in *. subst threw.
    destruct (animate_window a (mouse pg)) as [E1 E2].
    destruct (animate a (mouse pg)) as [a' ops].
    cbn [fst snd ret state] in *. split; [reflexivity |].
    unfold has_window in *. rewrite E1, E2. exact Hw'.
  - split; [reflexivity | exact Hwin].
  - split; [reflexivity | exact Hwin].
  - destruct (animate_window (state pg) (mouse pg)) as [E1 E2].
    destruct (animate (state pg) (mouse pg)) as [a' ops].
    cbn [fst snd ret state] in *. split; [reflexivity |].
    unfold has_window in *. rewrite E1, E2. exact Hwin.
Qed.

Lemma runInputs_quiet (host : Host) (ctx : Raster) (inps : list Input) :
  getContext2d host = Some ctx ->
  Forall sized_input inps ->
  forall pg tp,
    valid_tape tp ->
    has_window (state pg) ->
    List.length (field pg) = PARTICLE_COUNT ->
    snd (fst (fst (runInputs host inps pg tp))) = false.
Proof.
  intros Hctx Hsized.
  induction Hsized as [| inp rest Hinp _ IH]; intros pg tp Hv Hwin Hlen;
    [reflexivity |].
  cbn [runInputs]. unfold bind.
  pose proof (dispatch_quiet host ctx inp pg tp Hctx Hv Hwin Hinp Hlen)
    as [Hq Hwin1].
  pose proof (dispatch_identity host inp pg tp
                (PARTICLE_COUNT_nonempty _ Hlen)) as Hid.
  pose proof (keeps_valid_dispatch host inp pg tp Hv) as Hv1.
  destruct (dispatch host inp pg tp) as [[[pg1 threw1] ops1] tp1].
  cbn [fst snd] in *. subst threw1.
  assert (Hlen1 : List.length (field pg1) = PARTICLE_COUNT)
    by (rewrite <- Hlen; symmetry; eapply Forall2_length; exact Hid).
  specialize (IH pg1 tp1 Hv1 Hwin1 Hlen1).
  destruct (runInputs host rest pg1 tp1) as [[[pg2 threw2] ops2] tp2].
  cbn [fst snd ret] in *. exact IH.
Qed.

Lemma mount_window (host : Host) (width height : nat) (tp : Tape) :
  innerWidth (state (fst (fst (fst (mount host width height tp))))) = width
  /\ innerHeight (state (fst (fst (fst (mount host width height tp)))))
     = height.
Proof.
  unfold mount, bind.
  destruct (handleResize_window host (initialApp width height) tp)
    as [E1 E2].
  destruct (handleResize host (initialApp width height) tp)
    as [[a threw] tp1].
  cbn [fst snd innerWidth innerHeight initialApp] in *.
  destruct threw; [split; assumption |].
  destruct (animate_window a (-1000, -1000)) as [F1 F2].
  destruct (animate a (-1000, -1000)) as [a' ops].
  cbn [fst snd ret state] in *. split; congruence.
Qed.

(** X22: On a host that gives a 2D context, with draws in [0, 1), in a
    window that has at least 1x1 pixels at the mount and after every
    resize, no handler throws in a whole session: every text change and
    resize finds a point for every particle. *)
Theorem session_never_throws (host : Host) (ctx : Raster)
  (width height : nat) (inps : list Input) (tp : Tape) :
  getContext2d host = Some ctx ->
  (1 <= width)%nat -> (1 <= height)%nat ->
  Forall sized_input inps ->
  valid_tape tp ->
  snd (fst (fst (session host width height inps tp))) = false.
Proof.
  intros Hctx Hw Hh Hsized Hv. unfold session, bind.
  destruct (mount_field host width height tp Hv) as [Hq [Hlen _]].
  destruct (mount_window host width height tp) as [E1 E2].
  pose proof (keeps_valid_mount host width height tp Hv) as Hv1.
  destruct (mount host width height tp) as [[[pg threw] ops] tp1].
  cbn [fst snd] in *. subst threw.
  assert (Hwin : has_window (state pg))
    by (unfold has_window; rewrite E1, E2; split; assumption).
  pose proof (runInputs_quiet host ctx inps Hctx Hsized pg tp1 Hv1 Hwin Hlen)
    as Hr.
  destruct (runInputs host inps pg tp1) as [[[pg2 threw2] ops2] tp2].
  cbn [fst snd ret] in *. exact Hr.
Qed.

Lemma session_never_throws_witness :
  snd (fst (fst (session ellHost 20 20
                   [OnEvent (SetText "L"); OnFrame; OnEvent (Resize 30 30)]
                   (const_tape (1 / 2)))))
  = false.
Proof.
  apply (session_never_throws ellHost ellRaster 20 20
           [OnEvent (SetText "L"); OnFrame; OnEvent (Resize 30 30)]
           (const_tape (1 / 2))).
  - reflexivity.
  - lia.
  - lia.
  - repeat constructor; simpl; lia.
  - apply valid_const_tape. lra.
Defined.

(** X23: On a host that gives no 2D context, the first text that is not
    blank makes its handler throw: the session reports an exception, and
    the particles keep the targets they had. *)
Theorem text_without_context_throws (host : Host) (pg : Page) (s : string)
  (tp : Tape) :
  getContext2d host = None ->
  allSpace s = false ->
  field pg <> [] ->
  let r := fst (dispatch host (OnEvent (SetText s)) pg tp) in
  snd (fst r) = true
  /\ field (fst (fst r)) = field pg
  /\ snd r = [].
Proof.
  intros Hctx Hs Hne. cbv zeta. unfold field in *.
  cbn [dispatch]. unfold bind, handle, handleResize. cbn [particles].
  destruct (particles (state pg)) as [| p ps] eqn:E; [congruence |].
  rewrite <- E.
  match goal with
  | |- context [updateTargets host ?a tp] =>
      rewrite (updateTargets_without_context_eq host a tp Hctx Hs)
  end.
  - cbn [fst snd ret state particles]. repeat split; reflexivity.
  - cbn [particles]. rewrite E. discriminate.
Qed.

Lemma text_without_context_throws_witness :
  let pg := {| state := {| text := ""; innerWidth := 20; innerHeight := 20;
                           canvasWidth := 20; canvasHeight := 20;
                           particles := [restingParticle] |};
               mouse := (-1000, -1000) |} in
  let r := fst (dispatch hostWithoutContext (OnEvent (SetText "L")) pg
                  (const_tape 0)) in
  snd (fst r) = true
  /\ field (fst (fst r)) = field pg
  /\ snd r = [].
Proof.
  intros pg.
  apply (text_without_context_throws hostWithoutContext pg "L" (const_tape 0)).
  - reflexivity.
  - reflexivity.
  - discriminate.
Defined.

(** ** The mouse on a particle *)

Lemma atan2_origin : Math.atan2 0 0 = 0.
Proof.
  unfold Math.atan2.
  destruct (Rlt_dec 0 0) as [H | _]; [lra |]. reflexivity.
Qed.

(** X15: A particle exactly under the mouse is pushed with the full strength
    15, and to the right: [Math.atan2(0, 0)] is 0. *)
Theorem mouse_on_particle (p : Particle.t) (mouseX mouseY : R) :
  Particle.x p = mouseX -> Particle.y p = mouseY ->
  let q := Particle.update p mouseX mouseY in
  Particle.vx q
  = (Particle.vx p + (Particle.targetX p - Particle.x p) * Particle.ease p
     + 15) * Particle.friction p
  /\ Particle.vy q
     = (Particle.vy p + (Particle.targetY p - Particle.y p) * Particle.ease p)
       * Particle.friction p.
Proof.
  intros Hx Hy q. unfold q, Particle.update.
  cbn [Particle.vx Particle.vy].
  rewrite Hx, Hy.
  replace (mouseX - mouseX) with 0 by ring.
  replace (mouseY - mouseY) with 0 by ring.
  replace (0 * 0 + 0 * 0) with 0 by ring.
  rewrite Rltb_true by (unfold MOUSE_RADIUS; lra).
  unfold Math.sqrt. rewrite sqrt_0, atan2_origin, cos_0, sin_0.
  cbn [fst snd]. unfold MOUSE_RADIUS. split; field.
Qed.

Lemma mouse_on_particle_witness :
  let q := Particle.update restingParticle 0 0 in
  Particle.vx q
  = (Particle.vx restingParticle
     + (Particle.targetX restingParticle - Particle.x restingParticle)
       * Particle.ease restingParticle
     + 15) * Particle.friction restingParticle
  /\ Particle.vy q
     = (Particle.vy restingParticle
        + (Particle.targetY restingParticle - Particle.y restingParticle)
          * Particle.ease restingParticle)
       * Particle.friction restingParticle.
Proof.
  apply (mouse_on_particle restingParticle 0 0); reflexivity.
Defined.

(** ** A resize with no text *)

Lemma heart_targets (pts : list Point.t) (ps : list Particle.t)
  (P : R -> R -> Prop) :
  (forall q, In q pts -> P (Point.x q) (Point.y q)) ->
  (List.length ps <= List.length pts)%nat ->
  Forall (fun p => P (Particle.targetX p) (Particle.targetY p))
    (fst (forEachTarget 0 pts ps)).
Proof.
  intros HP Hlen.
  destruct (forEachTarget_spec pts ps 0 ltac:(lia)) as [Hl [_ Hnth]].
  apply Forall_forall. intros p' Hin.
  apply In_nth_error in Hin. destruct Hin as [i Hi].
  assert (Hi' : (i < List.length ps)%nat).
  { rewrite <- Hl. apply nth_error_Some. rewrite Hi. discriminate. }
  destruct (nth_error ps i) as [p |] eqn:Ep;
    [| apply nth_error_None in Ep; lia].
  specialize (Hnth i p Ep). cbn [Nat.add] in Hnth.
  destruct (nth_error pts i) as [q |] eqn:Eq;
    [| apply nth_error_None in Eq; lia].
  rewrite Hi in Hnth. inversion Hnth; subst p'.
  cbn [setTarget Particle.targetX Particle.targetY].
  apply HP. eapply nth_error_In. exact Eq.
Qed.

(** X20: When the text is blank, a resize of the window to [width] x [height]
    sizes the canvas to the window and, without throwing, gives every
    particle a target on the heart around the new centre: within 224
    pixels of it horizontally and 238 vertically. *)
Theorem resize_recentres_heart (host : Host) (app : App)
  (width height : nat) (tp : Tape) :
  allSpace (text app) = true ->
  particles app <> [] ->
  (List.length (particles app) <= PARTICLE_COUNT)%nat ->
  let r := fst (handle host (Resize width height) app tp) in
  snd r = false
  /\ canvasWidth (fst r) = width /\ canvasHeight (fst r) = height
  /\ Forall
       (fun p =>
          -224 <= Particle.targetX p - INR width / 2 <= 224
          /\ -238 <= Particle.targetY p - INR height / 2 <= 238)
       (particles (fst r)).
Proof.
  intros Htext Hne Hlen. cbv zeta.
  unfold handle. rewrite handleResize_nonempty by exact Hne.
  unfold updateTargets, bind, newPoints.
  cbn [text innerWidth innerHeight canvasWidth canvasHeight particles].
  rewrite trim_empty_iff, Htext. unfold bind, ret.
  pose proof (getHeartPoints_length width height tp) as HL.
  assert (Hbox : forall q, In q (fst (getHeartPoints width height tp)) ->
                   -224 <= Point.x q - INR width / 2 <= 224
                   /\ -238 <= Point.y q - INR height / 2 <= 238).
  { intros q Hq. apply heartLoop_points in Hq. destruct Hq as [r ->].
    apply heartPoint_range. }
  destruct (getHeartPoints width height tp) as [pts tp1].
  cbn [fst] in HL, Hbox.
  pose proof (heart_targets pts (particles app)
                (fun tx ty => -224 <= tx - INR width / 2 <= 224
                              /\ -238 <= ty - INR height / 2 <= 238)
                Hbox ltac:(lia)) as Ht.
  destruct (forEachTarget_spec pts (particles app) 0 ltac:(lia))
    as [_ [Hthrew _]].
  destruct (forEachTarget 0 pts (particles app)) as [ps threw].
  cbn [fst snd particles setParticles canvasWidth canvasHeight] in *.
  split; [| split; [reflexivity | split; [reflexivity | exact Ht]]].
  destruct threw; [| reflexivity].
  destruct Hthrew as [Hthrew _]. specialize (Hthrew eq_refl). lia.
Qed.

Lemma resize_recentres_heart_witness :
  let app := {| text := "  "; innerWidth := 20; innerHeight := 20;
                canvasWidth := 20; canvasHeight := 20;
                particles := [restingParticle; farParticle] |} in
  let r := fst (handle hostWithoutContext (Resize 800 600) app
                  (const_tape 0)) in
  snd r = false
  /\ canvasWidth (fst r) = 800%nat /\ canvasHeight (fst r) = 600%nat
  /\ Forall
       (fun p =>
          -224 <= Particle.targetX p - INR 800 / 2 <= 224
          /\ -238 <= Particle.targetY p - INR 600 / 2 <= 238)
       (particles (fst r)).
Proof.
  intros app.
  apply (resize_recentres_heart hostWithoutContext app 800 600 (const_tape 0)).
  - reflexivity.
  - discriminate.
  - unfold PARTICLE_COUNT. simpl. lia.
Defined.
